(** * loop-slack: the loop execution engine

    A shallow embedding of [src/loop.ts] (the iteration driver, the process
    runner, the workspace manager and the approval controller) together with
    the parts of [src/db.ts] and [src/config.ts] it calls.

    Conventions of the embedding.
    - The SQLite table [loops] is a finite map from loop identifier to row;
      [activeProcesses] is a finite map from loop identifier to process handle.
    - Everything the program reaches through the outside world is an explicit
      oracle: what a spawned process prints and how it exits, whether a shell
      command succeeds, whether a merge succeeds, and what other clients of
      the store do while the driver is suspended in an [await].
    - A JavaScript number is an integer [Z] (exact below 2^53), a string is a
      [string] of 8-bit characters, [null] is [None].
    - A promise is [Resolved], [Rejected] with the message of the error, or
      [Unsettled] when the awaited process never reports back. *)

From Stdlib Require Import Ascii.
From stdpp Require Import base option strings pretty gmap.

Local Open Scope string_scope.
Local Open Scope Z_scope.

(** ** The loop store ([src/db.ts]) *)

(** [new Date().toISOString()] reads the wall clock; the clock is a counter of
    the world. *)
Definition Timestamp := nat.

Module db.

Inductive LoopStatus :=
| Pending | Running | Paused | Waiting_approval | Complete | Error | Stopped.

Inductive LoopMode := Auto | Approval.

Record Loop := mkLoop {
  id : string;
  repo_owner : string;
  repo_name : string;
  channel_id : string;
  thread_ts : option string;
  status : LoopStatus;
  mode : LoopMode;
  current_issue : option Z;
  current_pr : option Z;
  iteration_current : Z;
  iteration_max : Z;
  started_at : option Timestamp;
  started_by : string;
  completed_at : option Timestamp;
  error : option string;
  pid : option Z;
}.

(** One key of a [Partial<Loop>] object together with its value. *)
Inductive Field :=
| id_ (v : string)
| repo_owner_ (v : string)
| repo_name_ (v : string)
| channel_id_ (v : string)
| thread_ts_ (v : option string)
| status_ (v : LoopStatus)
| mode_ (v : LoopMode)
| current_issue_ (v : option Z)
| current_pr_ (v : option Z)
| iteration_current_ (v : Z)
| iteration_max_ (v : Z)
| started_at_ (v : option Timestamp)
| started_by_ (v : string)
| completed_at_ (v : option Timestamp)
| error_ (v : option string)
| pid_ (v : option Z).

(** [Object.keys(updates).filter(k => k !== 'id')] *)
Definition is_id (f : Field) : bool :=
  match f with id_ _ => true | _ => false end.

(** The effect of [SET f = v] on one row. *)
Definition set_field (l : Loop) (f : Field) : Loop :=
  match f with
  | id_ v =>
      mkLoop v (repo_owner l) (repo_name l) (channel_id l) (thread_ts l)
        (status l) (mode l) (current_issue l) (current_pr l)
        (iteration_current l) (iteration_max l) (started_at l) (started_by l)
        (completed_at l) (error l) (pid l)
  | repo_owner_ v =>
      mkLoop (id l) v (repo_name l) (channel_id l) (thread_ts l) (status l)
        (mode l) (current_issue l) (current_pr l) (iteration_current l)
        (iteration_max l) (started_at l) (started_by l) (completed_at l)
        (error l) (pid l)
  | repo_name_ v =>
      mkLoop (id l) (repo_owner l) v (channel_id l) (thread_ts l) (status l)
        (mode l) (current_issue l) (current_pr l) (iteration_current l)
        (iteration_max l) (started_at l) (started_by l) (completed_at l)
        (error l) (pid l)
  | channel_id_ v =>
      mkLoop (id l) (repo_owner l) (repo_name l) v (thread_ts l) (status l)
        (mode l) (current_issue l) (current_pr l) (iteration_current l)
        (iteration_max l) (started_at l) (started_by l) (completed_at l)
        (error l) (pid l)
  | thread_ts_ v =>
      mkLoop (id l) (repo_owner l) (repo_name l) (channel_id l) v (status l)
        (mode l) (current_issue l) (current_pr l) (iteration_current l)
        (iteration_max l) (started_at l) (started_by l) (completed_at l)
        (error l) (pid l)
  | status_ v =>
      mkLoop (id l) (repo_owner l) (repo_name l) (channel_id l) (thread_ts l)
        v (mode l) (current_issue l) (current_pr l) (iteration_current l)
        (iteration_max l) (started_at l) (started_by l) (completed_at l)
        (error l) (pid l)
  | mode_ v =>
      mkLoop (id l) (repo_owner l) (repo_name l) (channel_id l) (thread_ts l)
        (status l) v (current_issue l) (current_pr l) (iteration_current l)
        (iteration_max l) (started_at l) (started_by l) (completed_at l)
        (error l) (pid l)
  | current_issue_ v =>
      mkLoop (id l) (repo_owner l) (repo_name l) (channel_id l) (thread_ts l)
        (status l) (mode l) v (current_pr l) (iteration_current l)
        (iteration_max l) (started_at l) (started_by l) (completed_at l)
        (error l) (pid l)
  | current_pr_ v =>
      mkLoop (id l) (repo_owner l) (repo_name l) (channel_id l) (thread_ts l)
        (status l) (mode l) (current_issue l) v (iteration_current l)
        (iteration_max l) (started_at l) (started_by l) (completed_at l)
        (error l) (pid l)
  | iteration_current_ v =>
      mkLoop (id l) (repo_owner l) (repo_name l) (channel_id l) (thread_ts l)
        (status l) (mode l) (current_issue l) (current_pr l) v
        (iteration_max l) (started_at l) (started_by l) (completed_at l)
        (error l) (pid l)
  | iteration_max_ v =>
      mkLoop (id l) (repo_owner l) (repo_name l) (channel_id l) (thread_ts l)
        (status l) (mode l) (current_issue l) (current_pr l)
        (iteration_current l) v (started_at l) (started_by l) (completed_at l)
        (error l) (pid l)
  | started_at_ v =>
      mkLoop (id l) (repo_owner l) (repo_name l) (channel_id l) (thread_ts l)
        (status l) (mode l) (current_issue l) (current_pr l)
        (iteration_current l) (iteration_max l) v (started_by l) (completed_at
        l) (error l) (pid l)
  | started_by_ v =>
      mkLoop (id l) (repo_owner l) (repo_name l) (channel_id l) (thread_ts l)
        (status l) (mode l) (current_issue l) (current_pr l)
        (iteration_current l) (iteration_max l) (started_at l) v (completed_at
        l) (error l) (pid l)
  | completed_at_ v =>
      mkLoop (id l) (repo_owner l) (repo_name l) (channel_id l) (thread_ts l)
        (status l) (mode l) (current_issue l) (current_pr l)
        (iteration_current l) (iteration_max l) (started_at l) (started_by l)
        v (error l) (pid l)
  | error_ v =>
      mkLoop (id l) (repo_owner l) (repo_name l) (channel_id l) (thread_ts l)
        (status l) (mode l) (current_issue l) (current_pr l)
        (iteration_current l) (iteration_max l) (started_at l) (started_by l)
        (completed_at l) v (pid l)
  | pid_ v =>
      mkLoop (id l) (repo_owner l) (repo_name l) (channel_id l) (thread_ts l)
        (status l) (mode l) (current_issue l) (current_pr l)
        (iteration_current l) (iteration_max l) (started_at l) (started_by l)
        (completed_at l) (error l) v
  end.

(** [UPDATE loops SET ... WHERE id = ?] on the matching row. *)
Definition set_fields (updates : list Field) (l : Loop) : Loop :=
  foldl set_field l (filter (fun f => is_id f = false) updates).

(** The text of a status, as a template literal prints it. *)
Definition status_name (s : LoopStatus) : string :=
  match s with
  | Pending => "pending"
  | Running => "running"
  | Paused => "paused"
  | Waiting_approval => "waiting_approval"
  | Complete => "complete"
  | Error => "error"
  | Stopped => "stopped"
  end.

Inductive Level := info | warn | error_level.

Record LogEntry := mkLog {
  loop_id : string;
  timestamp : Timestamp;
  level : Level;
  message : string;
}.

(** The two tables the engine uses.  [loop_logs] is kept newest first. *)
Record Store := mkStore {
  loops : gmap string Loop;
  loop_logs : list LogEntry;
}.

(** [SELECT * FROM loops WHERE id = ?] *)
Definition getLoop (id : string) (s : Store) : option Loop :=
  loops s !! id.

(** [UPDATE loops SET ... WHERE id = ?]: a missing row is left missing. *)
Definition updateLoop (id : string) (updates : list Field) (s : Store) : Store :=
  mkStore (alter (set_fields updates) id (loops s)) (loop_logs s).

Definition completeLoop (id : string) (now : Timestamp) : Store -> Store :=
  updateLoop id [status_ Complete; completed_at_ (Some now)].

Definition failLoop (id : string) (error : string) (now : Timestamp)
  : Store -> Store :=
  updateLoop id [status_ Error; error_ (Some error); completed_at_ (Some now)].

Definition stopLoop (id : string) (now : Timestamp) : Store -> Store :=
  updateLoop id [status_ Stopped; completed_at_ (Some now)].

(** [INSERT INTO loop_logs]; the timestamp column defaults to the clock. *)
Definition logLoop (loopId : string) (message : string) (level : Level)
    (now : Timestamp) (s : Store) : Store :=
  mkStore (loops s) (mkLog loopId now level message :: loop_logs s).

End db.

#[global] Instance LoopStatus_eq_dec : EqDecision db.LoopStatus.
Proof. solve_decision. Defined.

#[global] Instance LoopMode_eq_dec : EqDecision db.LoopMode.
Proof. solve_decision. Defined.

(** ** Configuration ([src/config.ts]) *)

Module config.

Record Repo := mkRepo {
  owner : string;
  name : string;
  default_branch : string;
  prompt_path : string;
}.

Record Config := mkConfig {
  repos : list Repo;
  user_keys : gmap string string;
  default_api_key : option string;
}.

(** [cfg.repos.find(r => r.owner === owner && r.name === name)] *)
Definition getRepo (cfg : Config) (owner name : string) : option Repo :=
  find (fun r => bool_decide (config.owner r = owner)
                 && bool_decide (config.name r = name)) (repos cfg).

(** A string is truthy when it is not empty. *)
Definition truthy (o : option string) : option string :=
  match o with
  | Some "" => None
  | other => other
  end.

(** [user_keys] is a plain object, so [cfg.user_keys[userId]] also finds what
    every object inherits from [Object.prototype]: eleven functions, and the
    prototype itself under [__proto__].  The only use of a key is as the
    value of an environment variable of the child process, where [spawn]
    turns it into text; an inherited member is carried as that text. *)
Definition native (name : string) : string :=
  "function " +:+ name +:+ "() { [native code] }".

Definition Object_prototype : list (string * string) :=
  [ ("constructor", native "Object");
    ("__defineGetter__", native "__defineGetter__");
    ("__defineSetter__", native "__defineSetter__");
    ("hasOwnProperty", native "hasOwnProperty");
    ("__lookupGetter__", native "__lookupGetter__");
    ("__lookupSetter__", native "__lookupSetter__");
    ("isPrototypeOf", native "isPrototypeOf");
    ("propertyIsEnumerable", native "propertyIsEnumerable");
    ("toString", native "toString");
    ("valueOf", native "valueOf");
    ("__proto__", "[object Object]");
    ("toLocaleString", native "toLocaleString") ].

Definition inherited (key : string) : option string :=
  snd <$> find (fun member => bool_decide (member.1 = key)) Object_prototype.

(** The own properties are the entries of the map; [__proto__] is never one
    of them (assigning a string to it leaves the object as it is). *)
Definition own (obj : gmap string string) (key : string) : option string :=
  if decide (key = "__proto__") then None else obj !! key.

(** [obj[key]]: an own property hides an inherited one. *)
Definition property (obj : gmap string string) (key : string) : option string :=
  match own obj key with
  | Some v => Some v
  | None => inherited key
  end.

(** [cfg.user_keys[userId] || cfg.factory?.default_api_key]; callers test the
    result with [!factoryKey], so an empty key counts as no key. *)
Definition getFactoryKey (cfg : Config) (userId : string) : option string :=
  match truthy (property (user_keys cfg) userId) with
  | Some k => Some k
  | None => truthy (default_api_key cfg)
  end.

End config.

(** ** Text of the agent's output *)

Module text.

(** [s.includes(needle)] *)
Fixpoint includes (s needle : string) : bool :=
  if String.prefix needle s then true
  else match s with
       | EmptyString => false
       | String _ s' => includes s' needle
       end.

(** [\d] without the unicode flag: the ten ASCII digits. *)
Definition is_digit (c : Ascii.ascii) : bool :=
  let n := Ascii.nat_of_ascii c in (48 <=? n)%nat && (n <=? 57)%nat.

(** [[^\/]] *)
Definition not_slash (c : Ascii.ascii) : bool :=
  negb (Ascii.eqb c "/"%char).

(** The longest prefix whose characters satisfy [p], and what follows it. *)
Fixpoint span (p : Ascii.ascii -> bool) (s : string) : string * string :=
  match s with
  | EmptyString => (EmptyString, EmptyString)
  | String c s' =>
      if p c then let '(a, b) := span p s' in (String c a, b)
      else (EmptyString, s)
  end.

(** [s] with the literal [lit] removed from its front. *)
Fixpoint strip (lit s : string) : option string :=
  match lit, s with
  | EmptyString, _ => Some s
  | String a lit', String b s' =>
      if Ascii.eqb a b then strip lit' s' else None
  | String _ _, EmptyString => None
  end.

(** A greedy, non-empty run of characters satisfying [p] ([[...]+]).  Every
    run below is followed by a literal that starts with a character outside
    the class or closes the pattern, so backtracking into a shorter run can
    never succeed and the greedy choice is the regular expression's. *)
Definition run1 (p : Ascii.ascii -> bool) (s : string) : option (string * string) :=
  match span p s with
  | (EmptyString, _) => None
  | (r, rest) => Some (r, rest)
  end.

(** [/https:\/\/github\.com\/[^\/]+\/[^\/]+\/pull\/(\d+)/] anchored at the
    front of [s]; the result is capture group 1. *)
Definition pull_url_at (s : string) : option string :=
  s0 ← strip "https://github.com/" s;
  '(_, s1) ← run1 not_slash s0;
  s2 ← strip "/" s1;
  '(_, s3) ← run1 not_slash s2;
  s4 ← strip "/pull/" s3;
  '(digits, _) ← run1 is_digit s4;
  Some digits.

(** [/#(\d+)/] anchored at the front of [s]. *)
Definition issue_ref_at (s : string) : option string :=
  s0 ← strip "#" s;
  '(digits, _) ← run1 is_digit s0;
  Some digits.

(** [s.match(re)] for a pattern without the global flag: the leftmost start
    position at which the pattern matches. *)
Fixpoint first_match (at_front : string -> option string) (s : string)
  : option string :=
  match at_front s with
  | Some g => Some g
  | None => match s with
            | EmptyString => None
            | String _ s' => first_match at_front s'
            end
  end.

Definition digit_value (c : Ascii.ascii) : Z :=
  Z.of_nat (Ascii.nat_of_ascii c) - 48.

(** [parseInt(digits, 10)] on a string of decimal digits: the integer the
    digits denote.  A JavaScript number holds that integer exactly up to
    2^53; beyond that [parseInt] gives the nearest number there is, which
    is not modelled. *)
Fixpoint parseInt_from (acc : Z) (digits : string) : Z :=
  match digits with
  | EmptyString => acc
  | String c rest => parseInt_from (10 * acc + digit_value c) rest
  end.

Definition parseInt (digits : string) : Z := parseInt_from 0 digits.

Fixpoint drop (n : nat) (s : string) : string :=
  match n, s with
  | O, _ => s
  | S n', String _ s' => drop n' s'
  | S _, EmptyString => EmptyString
  end.

(** [s.slice(-n)]: the last [n] characters, all of [s] when it is shorter. *)
Definition slice_last (n : nat) (s : string) : string :=
  drop (String.length s - n) s.

(** [chunks.join('')] *)
Definition join (chunks : list string) : string :=
  foldr String.append EmptyString chunks.

(** How a template literal prints a [number | null]. *)
Definition show (n : option Z) : string :=
  match n with
  | Some z => pretty z
  | None => "null"
  end.

End text.

(** ** The engine ([src/loop.ts]) *)

Module loop.

Definition WORKSPACE_DIR : string := "./workspaces".

(** [path.join(a, b)] for the two segments the engine joins: the segments
    with a separator in between, and the leading [./] dropped as
    normalisation does.  (Segments that are themselves [.] or [..], or that
    contain separators, are normalised further; that is not modelled.) *)
Definition join (a b : string) : string :=
  let joined := a +:+ "/" +:+ b in
  default joined (text.strip "./" joined).

Definition newline : string := String (Ascii.ascii_of_nat 10) EmptyString.

(** A [ChildProcess] handle is the position of its launch in the history of
    launches. *)
Definition Proc := nat.

Inductive Signal := SIGTERM.

Record Launch := mkLaunch {
  argv : list string;
  cwd : option string;
  FACTORY_API_KEY : option string;
}.

(** One invocation of a hook of [LoopCallbacks], with its arguments.  The
    first argument is what [db.getLoop(loopId)!] returned at that moment. *)
Inductive Call :=
| OnStart (l : option db.Loop)
| OnIteration (l : option db.Loop) (iteration : Z) (output : string)
| OnTaskComplete (l : option db.Loop) (issueNumber prNumber : Z)
| OnWaitingApproval (l : option db.Loop) (issueNumber prNumber : Z)
| OnComplete (l : option db.Loop)
| OnError (l : option db.Loop) (error : string).

(** [LoopCallbacks]: every hook is optional; a field says whether the caller
    supplied it.  The hooks belong to the notification collaborator: the
    engine's part is to invoke them, which [calls] records. *)
Record LoopCallbacks := mkCallbacks {
  onStart : bool;
  onIteration : bool;
  onTaskComplete : bool;
  onWaitingApproval : bool;
  onComplete : bool;
  onError : bool;
}.

(** The default argument [callbacks = {}]. *)
Definition no_callbacks : LoopCallbacks :=
  mkCallbacks false false false false false false.

(** The state the engine reads and writes.  [launches], [signals], [calls]
    and [merges] are histories, newest first. *)
Record World := mkWorld {
  store : db.Store;
  activeProcesses : gmap string Proc;
  launches : list Launch;
  signals : list (Proc * Signal);
  dirs : gset string;
  clock : Timestamp;
  calls : list Call;
  merges : list (string * string * Z);
}.

Definition with_store (f : db.Store -> db.Store) (w : World) : World :=
  mkWorld (f (store w)) (activeProcesses w) (launches w) (signals w) (dirs w)
    (clock w) (calls w) (merges w).

Definition with_activeProcesses
    (f : gmap string Proc -> gmap string Proc) (w : World) : World :=
  mkWorld (store w) (f (activeProcesses w)) (launches w) (signals w) (dirs w)
    (clock w) (calls w) (merges w).

(** [spawn(...)]: the new process gets the next handle. *)
Definition spawn (l : Launch) (w : World) : Proc * World :=
  (length (launches w), mkWorld (store w) (activeProcesses w)
   (l :: launches w) (signals w) (dirs w) (clock w) (calls w) (merges w)).

(** [proc.kill(sig)] *)
Definition kill (proc : Proc) (sig : Signal) (w : World) : World :=
  mkWorld (store w) (activeProcesses w) (launches w)
    ((proc, sig) :: signals w) (dirs w) (clock w) (calls w) (merges w).

Definition with_dirs (f : gset string -> gset string) (w : World) : World :=
  mkWorld (store w) (activeProcesses w) (launches w) (signals w) (f (dirs w))
    (clock w) (calls w) (merges w).

Definition tick (w : World) : World :=
  mkWorld (store w) (activeProcesses w) (launches w) (signals w) (dirs w)
    (S (clock w)) (calls w) (merges w).

(** [callbacks.hook?.(args)] *)
Definition call (supplied : bool) (c : Call) (w : World) : World :=
  if supplied then
    mkWorld (store w) (activeProcesses w) (launches w) (signals w) (dirs w)
      (clock w) (c :: calls w) (merges w)
  else w.

Definition request_merge (owner repo : string) (pr : Z) (w : World) : World :=
  mkWorld (store w) (activeProcesses w) (launches w) (signals w) (dirs w)
    (clock w) (calls w) ((owner, repo, pr) :: merges w).

(** The [db.*] calls of the engine; each [new Date()] reads the clock. *)
Definition getLoop (loopId : string) (w : World) : option db.Loop :=
  db.getLoop loopId (store w).

Definition updateLoop (loopId : string) (updates : list db.Field) : World -> World :=
  with_store (db.updateLoop loopId updates).

Definition logLoop (loopId message : string) (level : db.Level) (w : World) : World :=
  with_store (db.logLoop loopId message level (clock w)) w.

Definition completeLoop (loopId : string) (w : World) : World :=
  with_store (db.completeLoop loopId (clock w)) w.

Definition failLoop (loopId error : string) (w : World) : World :=
  with_store (db.failLoop loopId error (clock w)) w.

Definition stopLoop (loopId : string) (w : World) : World :=
  with_store (db.stopLoop loopId (clock w)) w.

(** [['running', 'pending', 'paused', 'waiting_approval'].includes(status)] *)
Definition active (s : db.LoopStatus) : bool :=
  match s with
  | db.Running | db.Pending | db.Paused | db.Waiting_approval => true
  | db.Complete | db.Error | db.Stopped => false
  end.

Definition stopLoopProcess (loopId : string) (w : World) : bool * World :=
  match activeProcesses w !! loopId with
  | Some proc =>
      let w := kill proc SIGTERM w in
      let w := with_activeProcesses (delete loopId) w in
      let w := stopLoop loopId w in
      (true, w)
  | None =>
      (* Maybe not actively running but in DB *)
      match getLoop loopId w with
      | Some loop =>
          if active (db.status loop) then (true, stopLoop loopId w)
          else (false, w)
      | None => (false, w)
      end
  end.

(** *** What happens while the engine awaits

    While an invocation is suspended in an [await], the event loop serves
    other requests: a stop request, another client of the store writing a
    row, time passing.  Another invocation of the driver at work on the same
    loop is seen through what it writes to the store; the processes it
    launches and registers are not among the events. *)
Inductive ExtEvent :=
| Stop (loopId : string)
| Write (loopId : string) (updates : list db.Field)
| Tick.

Definition ext_event (w : World) (e : ExtEvent) : World :=
  match e with
  | Stop loopId => (stopLoopProcess loopId w).2
  | Write loopId updates => updateLoop loopId updates w
  | Tick => tick w
  end.

Definition ext_events (es : list ExtEvent) (w : World) : World :=
  foldl ext_event w es.

(** A promise, once the oracles have been consulted. *)
Inductive Outcome (A : Type) :=
| Resolved (a : A)
| Rejected (reason : string)
| Unsettled.
Arguments Resolved {A} a.
Arguments Rejected {A} reason.
Arguments Unsettled {A}.

(** How a shell command ends: its exit code ([null] when killed by a
    signal) and what it printed. *)
Record Exec := mkExec {
  exec_during : list ExtEvent;
  exec_code : option Z;
  exec_output : string;
}.

(** [None]: the command never closes. *)
Definition execCommand (cmd : string) (cwd : option string)
    (o : option Exec) (w : World) : Outcome string * World :=
  let '(_, w) := spawn (mkLaunch ["sh"; "-c"; cmd] cwd None) w in
  match o with
  | None => (Unsettled, w)
  | Some e =>
      let w := ext_events (exec_during e) w in
      if decide (exec_code e = Some 0) then (Resolved (exec_output e), w)
      else (Rejected ("Command failed: " +:+ cmd +:+ newline +:+ exec_output e), w)
  end.

Definition ensureWorkspace (dir owner repo branch : string)
    (o : option Exec) (w : World) : Outcome unit * World :=
  let w := if decide (WORKSPACE_DIR ∈ dirs w) then w
           else with_dirs (union {[WORKSPACE_DIR]}) w in
  if decide (dir ∈ dirs w) then
    (* Pull latest *)
    match execCommand
            ("git fetch origin && git reset --hard origin/" +:+ branch)
            (Some dir) o w with
    | (Resolved _, w) => (Resolved (), w)
    | (Rejected reason, w) => (Rejected reason, w)
    | (Unsettled, w) => (Unsettled, w)
    end
  else
    (* Clone repo; a clone that succeeds leaves the directory behind *)
    match execCommand
            ("git clone https://github.com/" +:+ owner +:+ "/" +:+ repo
               +:+ ".git " +:+ dir)
            None o w with
    | (Resolved _, w) => (Resolved (), with_dirs (union {[dir]}) w)
    | (Rejected reason, w) => (Rejected reason, w)
    | (Unsettled, w) => (Unsettled, w)
    end.

(** How one run of the agent ends: the ['close'] event with the exit code
    ([null] when a signal killed it), or the ['error'] event. *)
Inductive ProcEnd :=
| Close (code : option Z)
| Failure (message : string).

(** One run of the agent: the chunks its two streams delivered, in arrival
    order, what else happened meanwhile, and how it ended. *)
Record Run := mkRun {
  during : list ExtEvent;
  chunks : list string;
  ending : ProcEnd;
}.

(** [None]: the process neither closes nor fails. *)
Definition runIteration (loopId workspaceDir factoryKey promptPath : string)
    (r : option Run) (w : World) : Outcome string * World :=
  let '(proc, w) :=
    spawn (mkLaunch ["droid"; "exec"; "--auto"; "high"; "-f"; promptPath]
             (Some workspaceDir) (Some factoryKey)) w in
  let w := with_activeProcesses <[loopId := proc]> w in
  match r with
  | None => (Unsettled, w)
  | Some r =>
      let w := ext_events (during r) w in
      let w := with_activeProcesses (delete loopId) w in
      match ending r with
      | Close code =>
          let fullOutput := text.join (chunks r) in
          if bool_decide (code = Some 0) || text.includes fullOutput "<done>"
          then (Resolved fullOutput, w)
          else (Rejected ("Droid exited with code " +:+ text.show code +:+ ": "
                            +:+ text.slice_last 500 fullOutput), w)
      | Failure message => (Rejected message, w)
      end
  end.

(** *** The iteration driver *)

(** What the oracles say about one invocation of the driver: how the
    workspace command ends, and the runs of the agent in the order in which
    the driver starts them.  A missing entry is a command that never ends. *)
Record Env := mkEnv {
  workspace : option Exec;
  runs : list Run;
}.

(** How control leaves the body of the [for] loop. *)
Inductive Flow :=
| Continue            (* the end of the body: [i++] and test again *)
| Break               (* [break]: on to the code after the loop *)
| Return              (* [return]: the invocation fulfils *)
| Throw (reason : string)  (* an exception outside the [try] *)
| Suspend.            (* the awaited process never reports back *)

(** Reading a property of [db.getLoop(loopId)!] when the row is missing. *)
Definition TypeError : string := "TypeError: null is not an object".

(** Both spellings of the completion sentinel. *)
Definition completion_sentinel (output : string) : bool :=
  text.includes output "<done>COMPLETE</done>"
  || text.includes output "<done>NO_TASKS</done>".

(** [issueNumber || 0] *)
Definition or_zero (n : option Z) : Z := default 0 n.

Section Driver.

Variable callbacks : LoopCallbacks.
Variable loopId : string.
(** [loop]: the row as [startLoop] read it on entry; [iteration_max] and
    [mode] are taken from this snapshot throughout. *)
Variable loop : db.Loop.
Variables workspaceDir factoryKey : string.
Variable repoConfig : config.Repo.

(** The part of the body inside [try], after the run resolved. *)
Definition classify (i : Z) (output : string) (w : World) : Flow * World :=
  let w := call (onIteration callbacks) (OnIteration (getLoop loopId w) i output) w in
  (* Parse result *)
  if completion_sentinel output then
    let w := completeLoop loopId w in
    let w := logLoop loopId "All tasks complete" db.info w in
    let w := call (onComplete callbacks) (OnComplete (getLoop loopId w)) w in
    (Return, w)
  else
    (* Check for PR creation *)
    match text.first_match text.pull_url_at output with
    | Some digits =>
        let prNumber := text.parseInt digits in
        let issueNumber :=
          text.parseInt <$> text.first_match text.issue_ref_at output in
        let w := updateLoop loopId
                   [db.current_pr_ (Some prNumber); db.current_issue_ issueNumber] w in
        if decide (db.mode loop = db.Approval) then
          let w := updateLoop loopId [db.status_ db.Waiting_approval] w in
          let w := logLoop loopId
                     ("Waiting for approval on PR #" +:+ pretty prNumber) db.info w in
          let w := call (onWaitingApproval callbacks)
                     (OnWaitingApproval (getLoop loopId w) (or_zero issueNumber) prNumber) w in
          (Return, w)
        else
          let w := call (onTaskComplete callbacks)
                     (OnTaskComplete (getLoop loopId w) (or_zero issueNumber) prNumber) w in
          (Continue, w)
    | None => (Continue, w)
    end.

(** The [catch] clause. *)
Definition on_error (errorMsg : string) (w : World) : Flow * World :=
  let w := failLoop loopId errorMsg w in
  let w := logLoop loopId ("Error: " +:+ errorMsg) db.error_level w in
  let w := call (onError callbacks) (OnError (getLoop loopId w) errorMsg) w in
  (Return, w).

(** The body of the [for] loop for the value [i] of the loop variable; [r] is
    the run the process runner would see if the body gets that far. *)
Definition iteration (i : Z) (r : option Run) (w : World) : Flow * World :=
  match getLoop loopId w with
  | None => (Throw TypeError, w)
  | Some currentLoop =>
      (* Check if stopped *)
      if decide (db.status currentLoop = db.Stopped) then
        (Break, logLoop loopId "Loop stopped by user" db.info w)
      (* Check if paused/waiting *)
      else if decide (db.status currentLoop = db.Paused
                      ∨ db.status currentLoop = db.Waiting_approval) then
        (Break, logLoop loopId
                  ("Loop paused (status: "
                     +:+ db.status_name (db.status currentLoop) +:+ ")") db.info w)
      else
        let w := updateLoop loopId [db.iteration_current_ i] w in
        let w := logLoop loopId
                   ("Starting iteration " +:+ pretty i +:+ "/"
                      +:+ pretty (db.iteration_max loop)) db.info w in
        match runIteration loopId workspaceDir factoryKey
                (config.prompt_path repoConfig) r w with
        | (Resolved output, w) => classify i output w
        | (Rejected errorMsg, w) => on_error errorMsg w
        | (Unsettled, w) => (Suspend, w)
        end
  end.

(** The [for] loop over the values [js] the loop variable is still to take.
    A body that reaches its end has used up one run. *)
Fixpoint for_loop (js : list Z) (rs : list Run) (w : World) : Flow * World :=
  match js with
  | [] => (Break, w)
  | i :: js' =>
      match iteration i (head rs) w with
      | (Continue, w) => for_loop js' (tail rs) w
      | exit => exit
      end
  end.

(** The code after the loop. *)
Definition after_loop (w : World) : Outcome unit * World :=
  (* Reached max iterations *)
  match getLoop loopId w with
  | None => (Rejected TypeError, w)
  | Some finalLoop =>
      if decide (db.status finalLoop = db.Running) then
        let w := completeLoop loopId w in
        let w := logLoop loopId
                   ("Reached iteration limit (" +:+ pretty (db.iteration_max loop)
                      +:+ ")") db.info w in
        let w := call (onComplete callbacks) (OnComplete (getLoop loopId w)) w in
        (Resolved (), w)
      else (Resolved (), w)
  end.

(** The loop and what follows it. *)
Definition drive (js : list Z) (rs : list Run) (w : World)
  : Outcome unit * World :=
  match for_loop js rs w with
  | (Continue, w) | (Break, w) => after_loop w
  | (Return, w) => (Resolved (), w)
  | (Throw reason, w) => (Rejected reason, w)
  | (Suspend, w) => (Unsettled, w)
  end.

End Driver.

(** [for (let i = 1; i <= loop.iteration_max; i++)]: the loop variable takes
    the values 1, 2, ..., [iteration_max] in turn, none when
    [iteration_max < 1]; that is [seqZ 1 iteration_max]. *)
Definition startLoop (cfg : config.Config) (loopId : string)
    (callbacks : LoopCallbacks) (env : Env) (w : World) : Outcome unit * World :=
  match getLoop loopId w with
  | None => (Rejected ("Loop not found: " +:+ loopId), w)
  | Some loop =>
  match config.getRepo cfg (db.repo_owner loop) (db.repo_name loop) with
  | None => (Rejected ("Repo not configured: " +:+ db.repo_owner loop +:+ "/"
                         +:+ db.repo_name loop), w)
  | Some repoConfig =>
  match config.getFactoryKey cfg (db.started_by loop) with
  | None => (Rejected ("No Factory API key for user " +:+ db.started_by loop), w)
  | Some factoryKey =>
      (* Set up workspace *)
      let workspaceDir :=
        join WORKSPACE_DIR (db.repo_owner loop +:+ "-" +:+ db.repo_name loop) in
      match ensureWorkspace workspaceDir (db.repo_owner loop) (db.repo_name loop)
              (config.default_branch repoConfig) (workspace env) w with
      | (Rejected reason, w) => (Rejected reason, w)
      | (Unsettled, w) => (Unsettled, w)
      | (Resolved _, w) =>
          (* Mark as running *)
          let w := updateLoop loopId
                     [db.status_ db.Running; db.started_at_ (Some (clock w))] w in
          let w := logLoop loopId "Loop started" db.info w in
          let w := call (onStart callbacks) (OnStart (getLoop loopId w)) w in
          (* Run iterations *)
          drive callbacks loopId loop workspaceDir factoryKey repoConfig
            (seqZ 1 (db.iteration_max loop)) (runs env) w
      end
  end end end.

(** *** The approval controller *)

(** [startLoop(loopId).catch(...)]: an invocation of the driver that nobody
    awaits, with no callbacks. *)
Inductive Detached := Restart (loopId : string).

Definition run_detached (cfg : config.Config) (d : Detached) (env : Env)
    (w : World) : Outcome unit * World :=
  let 'Restart loopId := d in startLoop cfg loopId no_callbacks env w.

(** What [github.mergePR] answers, and what happened while it was awaited. *)
Record Merge := mkMerge {
  merge_during : list ExtEvent;
  merged : bool;
}.

(** [if (loop.current_pr)]: a number is truthy unless it is 0. *)
Definition pr_on_record (l : db.Loop) : option Z :=
  match db.current_pr l with
  | Some 0 => None
  | other => other
  end.

Definition not_waiting : string := "Loop is not waiting for approval".

Definition continue_loop (loopId : string) (w : World) : World :=
  updateLoop loopId
    [db.status_ db.Running; db.current_pr_ None; db.current_issue_ None] w.

Definition approveAndContinue (loopId : string) (m : Merge) (w : World)
  : Outcome Detached * World :=
  match getLoop loopId w with
  | None => (Rejected not_waiting, w)
  | Some loop =>
      if decide (db.status loop ≠ db.Waiting_approval) then (Rejected not_waiting, w)
      else
        (* Merge the PR if there is one *)
        match pr_on_record loop with
        | Some pr =>
            let w := request_merge (db.repo_owner loop) (db.repo_name loop) pr w in
            let w := ext_events (merge_during m) w in
            if merged m then
              let w := logLoop loopId ("Merged PR #" +:+ pretty pr) db.info w in
              (* Continue the loop *)
              (Resolved (Restart loopId), continue_loop loopId w)
            else (Rejected ("Failed to merge PR #" +:+ pretty pr), w)
        | None => (Resolved (Restart loopId), continue_loop loopId w)
        end
  end.

Definition skipAndContinue (loopId : string) (w : World)
  : Outcome Detached * World :=
  match getLoop loopId w with
  | None => (Rejected not_waiting, w)
  | Some loop =>
      if decide (db.status loop ≠ db.Waiting_approval) then (Rejected not_waiting, w)
      else
        let w := continue_loop loopId w in
        let w := logLoop loopId
                   ("Skipped PR #" +:+ text.show (db.current_pr loop)) db.info w in
        (* Continue *)
        (Resolved (Restart loopId), w)
  end.

(** [activeProcesses.size] *)
Definition getActiveProcessCount (w : World) : nat := size (activeProcesses w).

End loop.

(** * Vocabulary of the properties *)

Module observe.

Import loop.

(** The two checks at the top of the body: the statuses on which the driver
    leaves the loop. *)
Definition halts (s : db.LoopStatus) : bool :=
  match s with
  | db.Stopped | db.Paused | db.Waiting_approval => true
  | db.Pending | db.Running | db.Complete | db.Error => false
  end.

(** The launch of the agent for one iteration. *)
Definition droid (workspaceDir factoryKey promptPath : string) : Launch :=
  mkLaunch ["droid"; "exec"; "--auto"; "high"; "-f"; promptPath]
    (Some workspaceDir) (Some factoryKey).

(** The parts of the world no request from outside touches: launches, hook
    calls, merge requests and directories. *)
Definition footprint (w : World)
  : list Launch * list Call * list (string * string * Z) * gset string :=
  (launches w, calls w, merges w, dirs w).

(** The world at the moment the process of iteration [i] closes: the counter
    has been written, the process launched, registered, and taken out of the
    registry again; [during r] happened in between. *)
Definition at_close (loopId : string) (loop : db.Loop)
    (workspaceDir factoryKey : string) (repoConfig : config.Repo)
    (i : Z) (r : Run) (w : World) : World :=
  let w := updateLoop loopId [db.iteration_current_ i] w in
  let w := logLoop loopId
             ("Starting iteration " +:+ pretty i +:+ "/"
                +:+ pretty (db.iteration_max loop)) db.info w in
  let '(proc, w) :=
    spawn (droid workspaceDir factoryKey (config.prompt_path repoConfig)) w in
  let w := with_activeProcesses <[loopId := proc]> w in
  let w := ext_events (during r) w in
  with_activeProcesses (delete loopId) w.

(** The pull request and the issue a row has on record. *)
Definition pr_on_file (l : db.Loop) : option Z * option Z :=
  (db.current_pr l, db.current_issue l).

(** A write to the row of [loopId] by another client of the store. *)
Definition writes_to (loopId : string) (e : ExtEvent) : bool :=
  match e with
  | Write other _ => bool_decide (other = loopId)
  | Stop _ | Tick => false
  end.

(** The statuses from which a loop never leaves, according to the data
    model. *)
Definition terminal (s : db.LoopStatus) : bool :=
  match s with
  | db.Complete | db.Error | db.Stopped => true
  | db.Pending | db.Running | db.Paused | db.Waiting_approval => false
  end.

End observe.

(** * The scenarios of the specification *)

Module scenario.

Import loop.

(** One configured repository and one user with a key. *)
Definition cfg : config.Config :=
  config.mkConfig [config.mkRepo "acme" "app" "main" "prompt.md"]
    {["U1" := "fac_1"]} None.

(** The row of loop [L1] of user [U1] on [acme/app]. *)
Definition row (status : db.LoopStatus) (mode : db.LoopMode)
    (iteration_current iteration_max : Z) : db.Loop :=
  db.mkLoop "L1" "acme" "app" "C1" None status mode None None
    iteration_current iteration_max None "U1" None None None.

(** A world whose store holds the one row [l], with nothing running. *)
Definition world (l : db.Loop) : World :=
  mkWorld (db.mkStore {[db.id l := l]} []) ∅ [] [] ∅ 0%nat [] [].


(** An observer that supplies every hook. *)
Definition observer : LoopCallbacks := mkCallbacks true true true true true true.

(** A shell command that succeeds, and one that fails. *)
Definition ok : Exec := mkExec [] (Some 0) "".
Definition clone_fails : Exec :=
  mkExec [] (Some 128) "fatal: could not read from remote repository".

(** A run that prints [output] and closes with [code], nothing else
    happening meanwhile. *)
Definition prints (output : string) (code : option Z) : Run :=
  mkRun [] [output] (Close code).

Definition pr_output : string :=
  "Opened https://github.com/acme/app/pull/42 (closes #7)".

Definition both_output : string :=
  "https://github.com/acme/app/pull/42 #7 <done>COMPLETE</done>".

(** Scenario B carried one iteration further: in approval mode, iteration 1
    prints nothing of note and iteration 2 opens pull request 42. *)
Definition waiting_at_2 : World :=
  (startLoop cfg "L1" observer
     (mkEnv (Some ok) [prints "working" (Some 0); prints pr_output (Some 0)])
     (world (row db.Pending db.Approval 0 3))).2.

(** The row of loop [L1], if any, seen through a projection. *)
Abbreviation on_record f w := (f <$> getLoop "L1" w).

(** The driver's view of loop [L1] once past the workspace. *)
Abbreviation drive_L1 l :=
  (drive observer "L1" l "workspaces/acme-app" "fac_1"
     (config.mkRepo "acme" "app" "main" "prompt.md")).

End scenario.

(** * The rest of the loop store ([src/db.ts]) *)

Module queries.

(** The argument of [createLoop]; [mode] and [iteration_max] are optional
    ([None] also stands for an [iteration_max] that is [NaN]). *)
Record NewLoop := mkNewLoop {
  repo_owner : string;
  repo_name : string;
  channel_id : string;
  started_by : string;
  mode : option db.LoopMode;
  iteration_max : option Z;
}.

(** [data.iteration_max || 10]: a missing, [NaN] or zero value is falsy. *)
Definition iteration_max_or_10 (n : option Z) : Z :=
  match n with
  | None | Some 0 => 10
  | Some n => n
  end.

(** The row [INSERT INTO loops (...) VALUES (..., 'pending')] writes; the
    columns it does not name take their defaults. *)
Definition new_row (id : string) (data : NewLoop) : db.Loop :=
  db.mkLoop id (repo_owner data) (repo_name data) (channel_id data) None
    db.Pending (default db.Auto (mode data)) None None 0
    (iteration_max_or_10 (iteration_max data)) None (started_by data)
    None None None.

(** [createLoop]; [id] is what [randomUUID()] returns.  [id] is the primary
    key: the insert of a second row with the same [id] throws, which is
    [None]. *)
Definition createLoop (data : NewLoop) (id : string) (s : db.Store)
  : option (db.Loop * db.Store) :=
  match db.loops s !! id with
  | Some _ => None
  | None =>
      let s := db.mkStore (<[id := new_row id data]> (db.loops s)) (db.loop_logs s) in
      l ← db.getLoop id s; Some (l, s)
  end.

(** [status IN ('pending', 'running', 'paused', 'waiting_approval')] *)
Definition in_active_statuses (s : db.LoopStatus) : Prop :=
  s = db.Pending \/ s = db.Running \/ s = db.Paused \/ s = db.Waiting_approval.

#[global] Instance in_active_statuses_dec s : Decision (in_active_statuses s).
Proof. unfold in_active_statuses. apply _. Defined.

(** [getActiveLoops]: the rows the query selects, by primary key.  (The
    query has no [ORDER BY]; its callers use the number of rows, and the row
    itself when there is one.) *)
Definition getActiveLoops (s : db.Store) : gmap string db.Loop :=
  filter (fun kv => in_active_statuses (db.status kv.2)) (db.loops s).

(** [getLoopsForRepo]: the active rows of one repository. *)
Definition getLoopsForRepo (owner name : string) (s : db.Store)
  : gmap string db.Loop :=
  filter (fun kv => db.repo_owner kv.2 = owner /\ db.repo_name kv.2 = name
                    /\ in_active_statuses (db.status kv.2)) (db.loops s).

(** [db.startLoop]: what the [onStart] hook of the Slack front end calls.
    [threadTs || null]: an empty string is falsy. *)
Definition startLoop (id : string) (threadTs : option string) (now : Timestamp)
  : db.Store -> db.Store :=
  db.updateLoop id
    [db.status_ db.Running; db.started_at_ (Some now);
     db.thread_ts_ (config.truthy threadTs)].

End queries.

(** * Further vocabulary *)

Module notions.

Import loop.

(** Every row is stored under its own [id]. *)
Definition keyed_by_id (s : db.Store) : Prop :=
  map_Forall (fun k l => db.id l = k) (db.loops s).

(** A string of decimal digits. *)
Fixpoint all_digits (s : string) : bool :=
  match s with
  | EmptyString => true
  | String c s' => text.is_digit c && all_digits s'
  end.

(** A string without a slash. *)
Fixpoint no_slash (s : string) : bool :=
  match s with
  | EmptyString => true
  | String c s' => text.not_slash c && no_slash s'
  end.

(** What follows a number in a text: nothing, or a character that is not a
    digit. *)
Definition ends_number (rest : string) : bool :=
  match rest with
  | EmptyString => true
  | String c _ => negb (text.is_digit c)
  end.

(** The integers a JavaScript number holds exactly, zero and up: those up to
    [Number.MAX_SAFE_INTEGER]. *)
Definition MAX_SAFE_INTEGER : Z := 2 ^ 53 - 1.

Definition safe_integer (n : Z) : Prop := 0 <= n <= MAX_SAFE_INTEGER.

(** The URL of pull request [n] of [owner/repo]. *)
Definition pull_url (owner repo : string) (n : Z) : string :=
  "https://github.com/" +:+ owner +:+ "/" +:+ repo +:+ "/pull/" +:+ pretty n.

(** An output that gives the driver nothing to act on: no completion
    sentinel and no pull request URL. *)
Definition plain (output : string) : bool :=
  negb (completion_sentinel output)
  && bool_decide (text.first_match text.pull_url_at output = None).

(** A run during which nothing else happens and that closes with code 0
    and a plain output. *)
Definition uneventful (r : Run) : Prop :=
  during r = [] /\ ending r = Close (Some 0) /\ plain (text.join (chunks r)) = true.

(** A run during which nothing else happens. *)
Definition undisturbed (r : Run) : Prop := during r = [].

(** An environment in which nothing else happens while the driver waits. *)
Definition calm (env : Env) : Prop :=
  from_option (fun e => exec_during e = []) True (workspace env)
  /\ Forall undisturbed (runs env).

(** The hook calls of one kind. *)
Definition is_waiting_call (c : Call) : bool :=
  match c with OnWaitingApproval _ _ _ => true | _ => false end.

Definition is_task_call (c : Call) : bool :=
  match c with OnTaskComplete _ _ _ => true | _ => false end.

(** [old] is what [new] ends with: [new] is [old] with entries put in
    front. *)
Definition extends {A} (new old : list A) : Prop :=
  exists added, new = (added ++ old)%list.

(** The hook calls a driver may make, given the hooks it was handed and the
    mode of the loop: a hook that was supplied, onTaskComplete in auto mode
    only and onWaitingApproval in approval mode only. *)
Definition allowed (callbacks : LoopCallbacks) (mode : db.LoopMode) (c : Call)
  : bool :=
  match c with
  | OnStart _ => onStart callbacks
  | OnIteration _ _ _ => onIteration callbacks
  | OnTaskComplete _ _ _ => onTaskComplete callbacks && bool_decide (mode = db.Auto)
  | OnWaitingApproval _ _ _ =>
      onWaitingApproval callbacks && bool_decide (mode = db.Approval)
  | OnComplete _ => onComplete callbacks
  | OnError _ _ => onError callbacks
  end.

(** From [w] to [w'] at most [k] processes were launched, the log and the
    history of hook calls only grew, the calls added all satisfy [ok], and no
    row was added to or removed from the store. *)
Definition advance (ok : Call -> bool) (k : nat) (w w' : World) : Prop :=
  (length (launches w') <= length (launches w) + k)%nat
  /\ extends (db.loop_logs (store w')) (db.loop_logs (store w))
  /\ (exists added,
        calls w' = (added ++ calls w)%list /\ Forall (fun c => ok c = true) added)
  /\ dom (db.loops (store w')) = dom (db.loops (store w)).

End notions.

(** * Further scenarios *)

Module examples.

Import loop scenario.

(** A store with two loops: [L1] running in auto mode, [L2] of another
    repository waiting for approval. *)
Definition two_loops : World :=
  mkWorld
    (db.mkStore
       (<["L2" := db.mkLoop "L2" "acme" "site" "C1" None db.Waiting_approval
                    db.Approval (Some 3) (Some 9) 1 5 None "U1" None None None]>
          {["L1" := row db.Running db.Auto 0 3]})
       [])
    ∅ [] [] ∅ 0%nat [] [].

(** An environment in which everything succeeds and three runs print
    nothing of note. *)
Definition three_plain_runs : Env :=
  mkEnv (Some ok)
    [prints "working" (Some 0); prints "working" (Some 0); prints "working" (Some 0)].

(** The request of the Slack front end for a loop on [acme/app] with no
    number of iterations given. *)
Definition request : queries.NewLoop :=
  queries.mkNewLoop "acme" "app" "C1" "U1" (Some db.Approval) None.

End examples.

(** * Properties of the engine *)

Import loop observe.

(** ** Reading the store through the state transformers *)

Lemma getLoop_updateLoop loopId updates w :
  getLoop loopId (updateLoop loopId updates w)
  = db.set_fields updates <$> getLoop loopId w.
Proof. apply lookup_alter_eq. Qed.

Lemma getLoop_updateLoop_ne loopId other updates w :
  other ≠ loopId ->
  getLoop loopId (updateLoop other updates w) = getLoop loopId w.
Proof. intros Hne. by apply lookup_alter_ne. Qed.

Lemma getLoop_logLoop loopId other message level w :
  getLoop loopId (logLoop other message level w) = getLoop loopId w.
Proof. reflexivity. Qed.

Lemma getLoop_call loopId supplied c w :
  getLoop loopId (call supplied c w) = getLoop loopId w.
Proof. by destruct supplied. Qed.

Lemma getLoop_with_activeProcesses loopId f w :
  getLoop loopId (with_activeProcesses f w) = getLoop loopId w.
Proof. reflexivity. Qed.

Lemma getLoop_stopLoop loopId w :
  getLoop loopId (stopLoop loopId w)
  = db.set_fields [db.status_ db.Stopped; db.completed_at_ (Some (clock w))]
      <$> getLoop loopId w.
Proof. apply lookup_alter_eq. Qed.

Lemma getLoop_completeLoop loopId w :
  getLoop loopId (completeLoop loopId w)
  = db.set_fields [db.status_ db.Complete; db.completed_at_ (Some (clock w))]
      <$> getLoop loopId w.
Proof. apply lookup_alter_eq. Qed.

Lemma getLoop_failLoop loopId error w :
  getLoop loopId (failLoop loopId error w)
  = db.set_fields [db.status_ db.Error; db.error_ (Some error);
                   db.completed_at_ (Some (clock w))]
      <$> getLoop loopId w.
Proof. apply lookup_alter_eq. Qed.

(** A write never creates or removes a row. *)
Lemma updateLoop_is_Some loopId other updates w :
  is_Some (getLoop loopId (updateLoop other updates w))
  <-> is_Some (getLoop loopId w).
Proof.
  destruct (decide (other = loopId)) as [->|Hne].
  - rewrite getLoop_updateLoop. apply fmap_is_Some.
  - by rewrite getLoop_updateLoop_ne.
Qed.

Lemma stopLoop_is_Some loopId other w :
  is_Some (getLoop loopId (stopLoop other w)) <-> is_Some (getLoop loopId w).
Proof.
  exact (updateLoop_is_Some loopId other
           [db.status_ db.Stopped; db.completed_at_ (Some (clock w))] w).
Qed.

Lemma stopLoopProcess_is_Some loopId other w :
  is_Some (getLoop loopId (stopLoopProcess other w).2)
  <-> is_Some (getLoop loopId w).
Proof.
  unfold stopLoopProcess.
  destruct (activeProcesses w !! other) as [proc|].
  - cbn [snd]. by rewrite stopLoop_is_Some.
  - destruct (getLoop other w) as [l|]; [|done].
    destruct (active (db.status l)); [|done].
    cbn [snd]. by rewrite stopLoop_is_Some.
Qed.

Lemma ext_event_is_Some loopId w e :
  is_Some (getLoop loopId (ext_event w e)) <-> is_Some (getLoop loopId w).
Proof.
  destruct e as [other|other updates|]; simpl.
  - apply stopLoopProcess_is_Some.
  - apply updateLoop_is_Some.
  - done.
Qed.

Lemma ext_events_is_Some loopId es w :
  is_Some (getLoop loopId (ext_events es w)) <-> is_Some (getLoop loopId w).
Proof.
  revert w. induction es as [|e es IH]; intros w; [done|].
  unfold ext_events in *. simpl. rewrite IH. apply ext_event_is_Some.
Qed.

(** ** What interference leaves alone *)

Lemma stopLoopProcess_footprint loopId w :
  footprint (stopLoopProcess loopId w).2 = footprint w.
Proof.
  unfold stopLoopProcess.
  destruct (activeProcesses w !! loopId); [done|].
  destruct (getLoop loopId w) as [l|]; [|done].
  by destruct (active (db.status l)).
Qed.

Lemma ext_event_footprint w e : footprint (ext_event w e) = footprint w.
Proof. destruct e; simpl; [apply stopLoopProcess_footprint|done|done]. Qed.

Lemma ext_events_footprint es w : footprint (ext_events es w) = footprint w.
Proof.
  revert w. induction es as [|e es IH]; intros w; [done|].
  unfold ext_events in *. simpl. rewrite IH. apply ext_event_footprint.
Qed.

Lemma ext_events_launches es w : launches (ext_events es w) = launches w.
Proof. pose proof (ext_events_footprint es w) as H. by injection H. Qed.

Lemma ext_events_calls es w : calls (ext_events es w) = calls w.
Proof. pose proof (ext_events_footprint es w) as H. by injection H. Qed.

(** ** One pass through the body of the loop *)

Section Body.

Variable callbacks : LoopCallbacks.
Variable loopId : string.
Variable loop : db.Loop.
Variables workspaceDir factoryKey : string.
Variable repoConfig : config.Repo.

Abbreviation iteration :=
  (loop.iteration callbacks loopId loop workspaceDir factoryKey repoConfig).
Abbreviation for_loop :=
  (loop.for_loop callbacks loopId loop workspaceDir factoryKey repoConfig).
Abbreviation drive :=
  (loop.drive callbacks loopId loop workspaceDir factoryKey repoConfig).
Abbreviation classify := (loop.classify callbacks loopId loop).
Abbreviation on_error := (loop.on_error callbacks loopId).
Abbreviation after_loop := (loop.after_loop callbacks loopId loop).
Abbreviation at_close :=
  (observe.at_close loopId loop workspaceDir factoryKey repoConfig).

Lemma at_close_is_Some i r w :
  is_Some (getLoop loopId w) -> is_Some (getLoop loopId (at_close i r w)).
Proof.
  intros H. unfold observe.at_close. cbn [spawn].
  rewrite getLoop_with_activeProcesses, ext_events_is_Some.
  rewrite getLoop_with_activeProcesses.
  by apply updateLoop_is_Some.
Qed.

Lemma at_close_launches i r w :
  launches (at_close i r w)
  = droid workspaceDir factoryKey (config.prompt_path repoConfig) :: launches w.
Proof. unfold observe.at_close. cbn [spawn launches with_activeProcesses]. by rewrite ext_events_launches. Qed.

Lemma at_close_calls i r w : calls (at_close i r w) = calls w.
Proof. unfold observe.at_close. cbn [spawn calls with_activeProcesses]. by rewrite ext_events_calls. Qed.

Lemma at_close_unregistered i r w : activeProcesses (at_close i r w) !! loopId = None.
Proof. unfold observe.at_close. cbn [spawn activeProcesses with_activeProcesses]. apply lookup_delete_eq. Qed.

(** On a halting status the body breaks out of the loop, having written one
    line to the log and nothing else. *)
Lemma iteration_halts i r w l :
  getLoop loopId w = Some l -> halts (db.status l) = true ->
  exists message,
    iteration i r w = (Break, logLoop loopId message db.info w).
Proof.
  intros Hl Hh. unfold loop.iteration. rewrite Hl.
  destruct (decide (db.status l = db.Stopped)) as [|Hs]; [eauto|].
  destruct (decide (db.status l = db.Paused ∨ db.status l = db.Waiting_approval))
    as [|Hp]; [eauto|].
  destruct (db.status l); try done; exfalso; tauto.
Qed.

(** On any other status the body runs the agent and hands its verdict to
    [classify] or to the [catch] clause. *)
Lemma iteration_runs i r w l :
  getLoop loopId w = Some l -> halts (db.status l) = false ->
  iteration i (Some r) w =
    match ending r with
    | Close code =>
        if bool_decide (code = Some 0)
           || text.includes (text.join (chunks r)) "<done>"
        then classify i (text.join (chunks r)) (at_close i r w)
        else on_error
               ("Droid exited with code " +:+ text.show code +:+ ": "
                  +:+ text.slice_last 500 (text.join (chunks r)))
               (at_close i r w)
    | Failure message => on_error message (at_close i r w)
    end.
Proof.
  intros Hl Hh. unfold loop.iteration. rewrite Hl.
  destruct (decide (db.status l = db.Stopped)) as [Hs|Hs];
    [by rewrite Hs in Hh|].
  destruct (decide (db.status l = db.Paused ∨ db.status l = db.Waiting_approval))
    as [[Hp|Hp]|Hp]; [by rewrite Hp in Hh|by rewrite Hp in Hh|].
  unfold runIteration, observe.at_close, droid. cbn [spawn].
  destruct (ending r) as [code|message]; [|done].
  by destruct (bool_decide (code = Some 0)
               || text.includes (text.join (chunks r)) "<done>").
Qed.

(** *** The completion branch *)

Lemma classify_sentinel i output w :
  completion_sentinel output = true ->
  classify i output w =
    (Return,
     let w := call (onIteration callbacks)
                (OnIteration (getLoop loopId w) i output) w in
     let w := logLoop loopId "All tasks complete" db.info (completeLoop loopId w) in
     call (onComplete callbacks) (OnComplete (getLoop loopId w)) w).
Proof. intros H. unfold loop.classify. by rewrite H. Qed.

Lemma clock_call supplied c w : clock (call supplied c w) = clock w.
Proof. by destruct supplied. Qed.

Lemma launches_call supplied c w : launches (call supplied c w) = launches w.
Proof. by destruct supplied. Qed.

Lemma calls_call supplied c w :
  calls (call supplied c w) = ((if supplied then [c] else []) ++ calls w)%list.
Proof. by destruct supplied. Qed.

(** The world the completion branch leaves behind. *)
Lemma completion_branch i output w lc :
  getLoop loopId w = Some lc ->
  let done :=
    db.set_fields [db.status_ db.Complete; db.completed_at_ (Some (clock w))] lc in
  forall w', classify i output w = (Return, w') ->
  completion_sentinel output = true ->
  getLoop loopId w' = Some done
  /\ launches w' = launches w
  /\ calls w'
     = ((if onComplete callbacks then [OnComplete (Some done)] else [])
        ++ (if onIteration callbacks
            then [OnIteration (Some lc) i output] else [])
        ++ calls w)%list.
Proof.
  intros Hl done w' Hc Hs. rewrite (classify_sentinel _ _ _ Hs) in Hc.
  injection Hc as <-. cbv zeta.
  assert (Hdone : getLoop loopId
            (logLoop loopId "All tasks complete" db.info
               (completeLoop loopId
                  (call (onIteration callbacks)
                     (OnIteration (getLoop loopId w) i output) w)))
          = Some done).
  { rewrite getLoop_logLoop, getLoop_completeLoop, getLoop_call, Hl, clock_call.
    reflexivity. }
  split; [by rewrite getLoop_call|]. split.
  - rewrite launches_call. exact (launches_call _ _ _).
  - rewrite calls_call, Hdone. f_equal.
    change (calls (call (onIteration callbacks)
                     (OnIteration (getLoop loopId w) i output) w)
            = ((if onIteration callbacks
                then [OnIteration (Some lc) i output] else []) ++ calls w)%list).
    by rewrite calls_call, Hl.
Qed.

Lemma drive_returns i js r rs w w' :
  iteration i (Some r) w = (Return, w') ->
  drive (i :: js) (r :: rs) w = (Resolved (), w').
Proof. intros H. unfold loop.drive. cbn [loop.for_loop head]. by rewrite H. Qed.

Lemma drive_continues i js r rs w w' :
  iteration i (Some r) w = (Continue, w') ->
  drive (i :: js) (r :: rs) w = drive js rs w'.
Proof. intros H. unfold loop.drive. cbn [loop.for_loop head tail]. by rewrite H. Qed.

End Body.

(** ** Facts about the text functions *)

Lemma prefix_app_l a b s :
  String.prefix (a +:+ b) s = true -> String.prefix a s = true.
Proof.
  revert s. induction a as [|c a IH]; intros s H; [by destruct s|].
  destruct s as [|c' s]; [done|]. simpl in *.
  destruct (ascii_dec c c'); [by apply IH|done].
Qed.

Lemma includes_unfold s needle :
  text.includes s needle
  = String.prefix needle s
    || match s with
       | EmptyString => false
       | String _ s' => text.includes s' needle
       end.
Proof. destruct s; cbn [text.includes]; by destruct (String.prefix needle _). Qed.

(** A text that includes a needle includes every prefix of the needle. *)
Lemma includes_app_l s a b :
  text.includes s (a +:+ b) = true -> text.includes s a = true.
Proof.
  induction s as [|c s IH];
    rewrite (includes_unfold _ (a +:+ b)), (includes_unfold _ a);
    intros H; apply orb_true_iff in H as [H|H]; apply orb_true_iff.
  - left. by apply prefix_app_l with b.
  - done.
  - left. by apply prefix_app_l with b.
  - right. by apply IH.
Qed.

(** Both spellings of the sentinel open with the marker [<done>]. *)
Lemma sentinel_has_marker output :
  completion_sentinel output = true -> text.includes output "<done>" = true.
Proof.
  unfold completion_sentinel. intros H.
  apply orb_true_iff in H as [H|H].
  - exact (includes_app_l output "<done>" "COMPLETE</done>" H).
  - exact (includes_app_l output "<done>" "NO_TASKS</done>" H).
Qed.

Lemma drop_length n s : String.length (text.drop n s) = (String.length s - n)%nat.
Proof.
  revert s. induction n as [|n IH]; intros s; simpl; [lia|].
  destruct s as [|c s]; simpl; [done|apply IH].
Qed.

Lemma drop_suffix n s : exists front, s = front +:+ text.drop n s.
Proof.
  revert s. induction n as [|n IH]; intros s; simpl; [by exists ""|].
  destruct s as [|c s]; [by exists ""|].
  destruct (IH s) as [front Hf]. exists (String c front).
  change (String c s = String c (front +:+ text.drop n s)). by f_equal.
Qed.

(** [slice_last n s] is the tail of [s] of length [min n (length s)]. *)
Lemma slice_last_tail n s :
  (exists front, s = front +:+ text.slice_last n s)
  /\ String.length (text.slice_last n s) = Nat.min n (String.length s).
Proof.
  unfold text.slice_last. split; [apply drop_suffix|].
  rewrite drop_length. lia.
Qed.

(** Requests from outside that do not write the row leave the pull request
    and the issue on record alone: a stop only changes [status] and
    [completed_at]. *)
Lemma pr_on_file_ext_event loopId w e :
  writes_to loopId e = false ->
  pr_on_file <$> getLoop loopId (ext_event w e) = pr_on_file <$> getLoop loopId w.
Proof.
  destruct e as [other|other updates|]; simpl; intros Hw; [| |done].
  - unfold stopLoopProcess.
    assert (Hstop : forall w0, getLoop loopId w0 = getLoop loopId w ->
              pr_on_file <$> getLoop loopId (stopLoop other w0)
              = pr_on_file <$> getLoop loopId w).
    { intros w0 H0. destruct (decide (other = loopId)) as [->|Hne].
      - rewrite getLoop_stopLoop, H0. by destruct (getLoop loopId w).
      - unfold stopLoop, db.stopLoop.
        change (with_store (db.updateLoop other ?u) w0) with (updateLoop other u w0).
        by rewrite getLoop_updateLoop_ne, H0. }
    destruct (activeProcesses w !! other); [by apply Hstop|].
    destruct (getLoop other w) as [l|]; [|done].
    destruct (active (db.status l)); [by apply Hstop|done].
  - apply bool_decide_eq_false in Hw. by rewrite getLoop_updateLoop_ne.
Qed.

Lemma pr_on_file_ext_events loopId es w :
  Forall (fun e => writes_to loopId e = false) es ->
  pr_on_file <$> getLoop loopId (ext_events es w) = pr_on_file <$> getLoop loopId w.
Proof.
  intros H. revert w. induction H as [|e es He _ IH]; intros w; [done|].
  unfold ext_events in *. simpl. rewrite IH. by apply pr_on_file_ext_event.
Qed.

Section Claims.

Variable callbacks : LoopCallbacks.
Variable loopId : string.
Variable loop : db.Loop.
Variables workspaceDir factoryKey : string.
Variable repoConfig : config.Repo.

Abbreviation iteration :=
  (loop.iteration callbacks loopId loop workspaceDir factoryKey repoConfig).
Abbreviation drive :=
  (loop.drive callbacks loopId loop workspaceDir factoryKey repoConfig).
Abbreviation classify := (loop.classify callbacks loopId loop).
Abbreviation at_close :=
  (observe.at_close loopId loop workspaceDir factoryKey repoConfig).
Abbreviation the_launch :=
  (droid workspaceDir factoryKey (config.prompt_path repoConfig)).

(** C4.  When the output of an iteration contains a completion sentinel, in
    either spelling, the loop is marked complete, onComplete is invoked with
    the completed loop, and the invocation of the driver ends there: whatever
    values [js] the loop variable had still to take and whatever runs [rs]
    would follow, exactly one process has been launched. *)
Theorem completion_sentinel_completes i js r rs w l code :
  getLoop loopId w = Some l ->
  halts (db.status l) = false ->
  ending r = Close code ->
  completion_sentinel (text.join (chunks r)) = true ->
  exists w' l',
    drive (i :: js) (r :: rs) w = (Resolved (), w')
    /\ getLoop loopId w' = Some l'
    /\ db.status l' = db.Complete
    /\ (onComplete callbacks = true -> head (calls w') = Some (OnComplete (Some l')))
    /\ launches w' = the_launch :: launches w.
Proof.
  intros Hl Hh He Hs.
  pose proof (iteration_runs callbacks loopId loop workspaceDir factoryKey
                repoConfig i r w l Hl Hh) as Hit.
  rewrite He, (sentinel_has_marker _ Hs), orb_true_r in Hit.
  destruct (at_close_is_Some loopId loop workspaceDir factoryKey repoConfig
              i r w (mk_is_Some _ _ Hl)) as [lc Hlc].
  destruct (classify i (text.join (chunks r)) (at_close i r w)) as [f w'] eqn:Hc.
  assert (f = Return) as ->.
  { rewrite (classify_sentinel callbacks loopId loop i _ _ Hs) in Hc. congruence. }
  destruct (completion_branch callbacks loopId loop i _ _ lc Hlc w' Hc Hs)
    as (Hdone & Hla & Hca).
  eexists w', _. split; [exact (drive_returns _ _ _ _ _ _ i js r rs w _ Hit)|].
  split; [exact Hdone|]. split; [reflexivity|]. split.
  - intros Hon. rewrite Hca, Hon. reflexivity.
  - rewrite Hla. apply at_close_launches.
Qed.

(** C10.  When the output contains both a completion sentinel and a pull
    request URL, the completion branch wins: the invocation ends with the
    loop complete, the hooks invoked are onIteration and onComplete only, and
    the pull request and the issue on record are what they were when the
    process closed; no other client having written the row meanwhile, they
    are the ones from before the iteration. *)
Theorem completion_precedes_pull_request i js r rs w l code digits :
  getLoop loopId w = Some l ->
  halts (db.status l) = false ->
  ending r = Close code ->
  completion_sentinel (text.join (chunks r)) = true ->
  text.first_match text.pull_url_at (text.join (chunks r)) = Some digits ->
  exists w' l',
    drive (i :: js) (r :: rs) w = (Resolved (), w')
    /\ getLoop loopId w' = Some l'
    /\ db.status l' = db.Complete
    /\ Some (pr_on_file l') = pr_on_file <$> getLoop loopId (at_close i r w)
    /\ (Forall (fun e => writes_to loopId e = false) (during r) ->
        db.current_pr l' = db.current_pr l
        /\ db.current_issue l' = db.current_issue l)
    /\ calls w'
       = ((if onComplete callbacks then [OnComplete (Some l')] else [])
          ++ (if onIteration callbacks
              then [OnIteration (getLoop loopId (at_close i r w)) i
                      (text.join (chunks r))]
              else [])
          ++ calls w)%list.
Proof.
  intros Hl Hh He Hs _.
  pose proof (iteration_runs callbacks loopId loop workspaceDir factoryKey
                repoConfig i r w l Hl Hh) as Hit.
  rewrite He, (sentinel_has_marker _ Hs), orb_true_r in Hit.
  assert (Hpr : Forall (fun e => writes_to loopId e = false) (during r) ->
                pr_on_file <$> getLoop loopId (at_close i r w) = Some (pr_on_file l)).
  { intros Hq. unfold observe.at_close. cbn [spawn].
    rewrite getLoop_with_activeProcesses.
    rewrite (pr_on_file_ext_events _ _ _ Hq), getLoop_with_activeProcesses.
    change (pr_on_file <$> getLoop loopId
              (updateLoop loopId [db.iteration_current_ i] w)
            = Some (pr_on_file l)).
    rewrite getLoop_updateLoop, Hl. reflexivity. }
  destruct (at_close_is_Some loopId loop workspaceDir factoryKey repoConfig
              i r w (mk_is_Some _ _ Hl)) as [lc Hlc].
  rewrite Hlc in Hpr |- *.
  destruct (classify i (text.join (chunks r)) (at_close i r w)) as [f w'] eqn:Hc.
  assert (f = Return) as ->.
  { rewrite (classify_sentinel callbacks loopId loop i _ _ Hs) in Hc. congruence. }
  destruct (completion_branch callbacks loopId loop i _ _ lc Hlc w' Hc Hs)
    as (Hdone & Hla & Hca).
  eexists w', _. split; [exact (drive_returns _ _ _ _ _ _ i js r rs w _ Hit)|].
  split; [exact Hdone|]. split; [reflexivity|]. split; [reflexivity|].
  split.
  - intros Hq. specialize (Hpr Hq). injection Hpr as Hpr Hissue. by split.
  - rewrite Hca. by rewrite (at_close_calls loopId loop workspaceDir factoryKey
                               repoConfig i r w).
Qed.

(** C5.  The body opens with a fresh read of the row.  If that read finds
    the status stopped, paused or waiting_approval, the invocation ends there
    and fulfils: no row has changed (so no error is marked and
    [iteration_current] is not advanced), no process has been launched,
    registered or signalled, and no hook has been invoked. *)
Theorem halting_status_stops_driver i js rs w l :
  getLoop loopId w = Some l ->
  halts (db.status l) = true ->
  exists w',
    drive (i :: js) rs w = (Resolved (), w')
    /\ db.loops (store w') = db.loops (store w)
    /\ launches w' = launches w
    /\ activeProcesses w' = activeProcesses w
    /\ signals w' = signals w
    /\ calls w' = calls w.
Proof.
  intros Hl Hh.
  destruct (iteration_halts callbacks loopId loop workspaceDir factoryKey
              repoConfig i (head rs) w l Hl Hh) as [message Hit].
  exists (logLoop loopId message db.info w). split; [|done].
  unfold loop.drive. cbn [loop.for_loop]. rewrite Hit.
  unfold loop.after_loop. rewrite getLoop_logLoop, Hl.
  destruct (decide (db.status l = db.Running)) as [Hr|]; [|done].
  by rewrite Hr in Hh.
Qed.

(** The world the pull-request branch leaves behind. *)
Lemma pull_request_branch i output w lc digits :
  getLoop loopId w = Some lc ->
  completion_sentinel output = false ->
  text.first_match text.pull_url_at output = Some digits ->
  let prNumber := text.parseInt digits in
  let issueNumber := text.parseInt <$> text.first_match text.issue_ref_at output in
  let filed :=
    db.set_fields [db.current_pr_ (Some prNumber); db.current_issue_ issueNumber] lc in
  let waiting := db.set_fields [db.status_ db.Waiting_approval] filed in
  exists w',
    launches w' = launches w
    /\ match db.mode loop with
       | db.Approval =>
           classify i output w = (Return, w')
           /\ getLoop loopId w' = Some waiting
           /\ (onWaitingApproval callbacks = true ->
               head (calls w')
               = Some (OnWaitingApproval (Some waiting) (or_zero issueNumber) prNumber))
       | db.Auto =>
           classify i output w = (Continue, w')
           /\ getLoop loopId w' = Some filed
           /\ (onTaskComplete callbacks = true ->
               head (calls w')
               = Some (OnTaskComplete (Some filed) (or_zero issueNumber) prNumber))
       end.
Proof.
  intros Hl Hs Hm prNumber issueNumber filed waiting.
  unfold loop.classify. rewrite Hs, Hm.
  fold prNumber. fold issueNumber.
  set (w1 := call (onIteration callbacks) _ w).
  set (w2 := updateLoop loopId _ w1).
  assert (H2 : getLoop loopId w2 = Some filed).
  { unfold w2, w1. by rewrite getLoop_updateLoop, getLoop_call, Hl. }
  assert (L2 : launches w2 = launches w) by apply launches_call.
  destruct (db.mode loop); cbn [decide_rel]; eexists; (split; [|split; [reflexivity|]]).
  - by rewrite launches_call.
  - split; [by rewrite getLoop_call|].
    intros ->. cbn [call calls head]. by rewrite H2.
  - by rewrite launches_call.
  - assert (H3 : getLoop loopId
                   (logLoop loopId ("Waiting for approval on PR #" +:+ pretty prNumber)
                      db.info (updateLoop loopId [db.status_ db.Waiting_approval] w2))
                 = Some waiting).
    { by rewrite getLoop_logLoop, getLoop_updateLoop, H2. }
    split; [by rewrite getLoop_call|].
    intros ->. cbn [call calls head]. by rewrite H3.
Qed.

(** The world the [catch] clause leaves behind. *)
Lemma error_branch errorMsg w lc :
  getLoop loopId w = Some lc ->
  let failed :=
    db.set_fields [db.status_ db.Error; db.error_ (Some errorMsg);
                   db.completed_at_ (Some (clock w))] lc in
  exists w',
    loop.on_error callbacks loopId errorMsg w = (Return, w')
    /\ getLoop loopId w' = Some failed
    /\ launches w' = launches w
    /\ (onError callbacks = true ->
        head (calls w') = Some (OnError (Some failed) errorMsg)).
Proof.
  intros Hl failed. eexists. split; [reflexivity|].
  assert (Hf : getLoop loopId
                 (logLoop loopId ("Error: " +:+ errorMsg) db.error_level
                    (failLoop loopId errorMsg w)) = Some failed).
  { by rewrite getLoop_logLoop, getLoop_failLoop, Hl. }
  split; [by rewrite getLoop_call|]. split; [by rewrite launches_call|].
  intros ->. cbn [call calls head]. by rewrite Hf.
Qed.

(** C3, as the code has it.  When the run of an iteration succeeds and its
    output contains a pull request URL with number N and no completion
    sentinel, the driver records [current_pr = N] and [current_issue] from the
    first [#<digits>] token of the output ([null] without one).  With mode
    approval it then sets the status to waiting_approval, invokes
    onWaitingApproval and ends the invocation, one process launched; with
    mode auto it leaves the status alone, invokes onTaskComplete and goes on
    to the next value of the loop variable. *)
Theorem pull_request_is_recorded i js r rs w l code digits :
  getLoop loopId w = Some l ->
  halts (db.status l) = false ->
  ending r = Close code ->
  code = Some 0 \/ text.includes (text.join (chunks r)) "<done>" = true ->
  completion_sentinel (text.join (chunks r)) = false ->
  text.first_match text.pull_url_at (text.join (chunks r)) = Some digits ->
  let prNumber := text.parseInt digits in
  let issueNumber :=
    text.parseInt <$> text.first_match text.issue_ref_at (text.join (chunks r)) in
  exists w' l',
    getLoop loopId w' = Some l'
    /\ db.current_pr l' = Some prNumber
    /\ db.current_issue l' = issueNumber
    /\ launches w' = the_launch :: launches w
    /\ match db.mode loop with
       | db.Approval =>
           drive (i :: js) (r :: rs) w = (Resolved (), w')
           /\ db.status l' = db.Waiting_approval
           /\ (onWaitingApproval callbacks = true ->
               head (calls w')
               = Some (OnWaitingApproval (Some l') (or_zero issueNumber) prNumber))
       | db.Auto =>
           drive (i :: js) (r :: rs) w = drive js rs w'
           /\ Some (db.status l') = db.status <$> getLoop loopId (at_close i r w)
           /\ (onTaskComplete callbacks = true ->
               head (calls w')
               = Some (OnTaskComplete (Some l') (or_zero issueNumber) prNumber))
       end.
Proof.
  intros Hl Hh He Hok Hs Hm prNumber issueNumber.
  pose proof (iteration_runs callbacks loopId loop workspaceDir factoryKey
                repoConfig i r w l Hl Hh) as Hit.
  rewrite He in Hit.
  assert (Hres : bool_decide (code = Some 0)
                 || text.includes (text.join (chunks r)) "<done>" = true).
  { apply orb_true_iff. destruct Hok as [->|Hok]; [by left|by right]. }
  rewrite Hres in Hit.
  destruct (at_close_is_Some loopId loop workspaceDir factoryKey repoConfig
              i r w (mk_is_Some _ _ Hl)) as [lc Hlc].
  destruct (pull_request_branch i _ _ lc digits Hlc Hs Hm) as (w' & Hla & Hbr).
  rewrite at_close_launches in Hla.
  destruct (db.mode loop); destruct Hbr as (Hc & Hg & Hcall); rewrite Hc in Hit.
  - exists w'; eexists. split; [exact Hg|]. do 3 (split; [done|]).
    split; [exact (drive_continues _ _ _ _ _ _ i js r rs w _ Hit)|].
    split; [by rewrite Hlc|exact Hcall].
  - exists w'; eexists. split; [exact Hg|]. do 3 (split; [done|]).
    split; [exact (drive_returns _ _ _ _ _ _ i js r rs w _ Hit)|].
    split; [done|exact Hcall].
Qed.

(** A run that closes with a code other than zero and without the marker
    [<done>] in its output ends the invocation with the loop in error. *)
Lemma failed_run_marks_error i js r rs w l code :
  getLoop loopId w = Some l ->
  halts (db.status l) = false ->
  ending r = Close code ->
  code <> Some 0 ->
  text.includes (text.join (chunks r)) "<done>" = false ->
  let errorMsg :=
    "Droid exited with code " +:+ text.show code +:+ ": "
      +:+ text.slice_last 500 (text.join (chunks r)) in
  exists w' l',
    drive (i :: js) (r :: rs) w = (Resolved (), w')
    /\ getLoop loopId w' = Some l'
    /\ db.status l' = db.Error
    /\ db.error l' = Some errorMsg
    /\ (onError callbacks = true -> head (calls w') = Some (OnError (Some l') errorMsg)).
Proof.
  intros Hl Hh He Hcode Hmark errorMsg.
  pose proof (iteration_runs callbacks loopId loop workspaceDir factoryKey
                repoConfig i r w l Hl Hh) as Hit.
  rewrite He, Hmark, orb_false_r, (bool_decide_eq_false_2 _ Hcode) in Hit.
  destruct (at_close_is_Some loopId loop workspaceDir factoryKey repoConfig
              i r w (mk_is_Some _ _ Hl)) as [lc Hlc].
  destruct (error_branch errorMsg _ lc Hlc) as (w' & Hc & Hg & _ & Hcall).
  fold errorMsg in Hit. rewrite Hc in Hit.
  exists w'; eexists. split; [exact (drive_returns _ _ _ _ _ _ i js r rs w _ Hit)|].
  split; [exact Hg|]. by repeat split.
Qed.

End Claims.

(** ** The process runner *)

Lemma runIteration_close loopId workspaceDir factoryKey promptPath r w code :
  ending r = Close code ->
  exists w',
    runIteration loopId workspaceDir factoryKey promptPath (Some r) w
    = (if bool_decide (code = Some 0)
          || text.includes (text.join (chunks r)) "<done>"
       then Resolved (text.join (chunks r))
       else Rejected ("Droid exited with code " +:+ text.show code +:+ ": "
                        +:+ text.slice_last 500 (text.join (chunks r))),
       w').
Proof.
  intros He. unfold runIteration. cbn [spawn]. rewrite He.
  destruct (bool_decide (code = Some 0)
            || text.includes (text.join (chunks r)) "<done>"); eauto.
Qed.

(** C8, as the code has it.  A run that closes is successful if and only if
    its exit code is zero or its output contains the marker [<done>], the
    opening tag both spellings of the completion sentinel share; so a run
    whose output contains a completion sentinel succeeds whatever its exit
    code.  A run that closes with another code and without the marker
    rejects with the message [Droid exited with code <code>: <tail>], where
    the tail is the last 500 characters of the output (all of it when it is
    shorter), and the driver marks the loop error with that message and
    ends the invocation. *)
Theorem run_succeeds_iff_zero_or_marker
    loopId workspaceDir factoryKey promptPath r w code :
  ending r = Close code ->
  let output := text.join (chunks r) in
  let errorMsg :=
    "Droid exited with code " +:+ text.show code +:+ ": "
      +:+ text.slice_last 500 output in
  ((exists w', runIteration loopId workspaceDir factoryKey promptPath (Some r) w
               = (Resolved output, w'))
   <-> code = Some 0 \/ text.includes output "<done>" = true)
  /\ (completion_sentinel output = true ->
      exists w', runIteration loopId workspaceDir factoryKey promptPath (Some r) w
                 = (Resolved output, w'))
  /\ (code <> Some 0 -> text.includes output "<done>" = false ->
      (exists w', runIteration loopId workspaceDir factoryKey promptPath (Some r) w
                  = (Rejected errorMsg, w'))
      /\ (exists front, output = front +:+ text.slice_last 500 output)
      /\ String.length (text.slice_last 500 output)
         = Nat.min 500 (String.length output)
      /\ forall callbacks loop repoConfig i js rs l,
           getLoop loopId w = Some l ->
           halts (db.status l) = false ->
           config.prompt_path repoConfig = promptPath ->
           exists w' l',
             drive callbacks loopId loop workspaceDir factoryKey repoConfig
               (i :: js) (r :: rs) w = (Resolved (), w')
             /\ getLoop loopId w' = Some l'
             /\ db.status l' = db.Error
             /\ db.error l' = Some errorMsg
             /\ (onError callbacks = true ->
                 head (calls w') = Some (OnError (Some l') errorMsg))).
Proof.
  intros He output errorMsg.
  destruct (runIteration_close loopId workspaceDir factoryKey promptPath r w code He)
    as [w' Hrun].
  fold output in Hrun. fold errorMsg in Hrun.
  split; [|split].
  - split.
    + intros [w'' H]. rewrite Hrun in H.
      destruct (bool_decide (code = Some 0) || text.includes output "<done>") eqn:E;
        [|discriminate].
      apply orb_true_iff in E as [E|E]; [left; by apply bool_decide_eq_true in E|by right].
    + intros H. exists w'. rewrite Hrun.
      destruct H as [-> | ->]; [done|by rewrite orb_true_r].
  - intros Hs. exists w'. by rewrite Hrun, (sentinel_has_marker _ Hs), orb_true_r.
  - intros Hcode Hmark. split; [|split; [|split]].
    + exists w'. by rewrite Hrun, Hmark, (bool_decide_eq_false_2 _ Hcode).
    + apply slice_last_tail.
    + apply slice_last_tail.
    + intros callbacks loop repoConfig i js rs l Hl Hh <-.
      exact (failed_run_marks_error callbacks loopId loop workspaceDir factoryKey
               repoConfig i js r rs w l code Hl Hh He Hcode Hmark).
Qed.

(** ** Stop *)


Lemma stopLoopProcess_unregistered loopId w :
  activeProcesses w !! loopId = None ->
  stopLoopProcess loopId w
  = match getLoop loopId w with
    | Some l => if active (db.status l) then (true, stopLoop loopId w) else (false, w)
    | None => (false, w)
    end.
Proof. intros H. unfold stopLoopProcess. by rewrite H. Qed.



(** ** The approval controller *)

Lemma getLoop_continue_loop loopId w :
  getLoop loopId (continue_loop loopId w)
  = db.set_fields
      [db.status_ db.Running; db.current_pr_ None; db.current_issue_ None]
      <$> getLoop loopId w.
Proof. apply getLoop_updateLoop. Qed.

Lemma not_waiting_rejects loopId m w :
  db.status <$> getLoop loopId w <> Some db.Waiting_approval ->
  approveAndContinue loopId m w = (Rejected not_waiting, w)
  /\ skipAndContinue loopId w = (Rejected not_waiting, w).
Proof.
  intros H. unfold approveAndContinue, skipAndContinue.
  destruct (getLoop loopId w) as [l|]; [|done].
  destruct (decide (db.status l ≠ db.Waiting_approval)) as [|Hw]; [done|].
  destruct H. simpl. f_equal. by destruct (decide (db.status l = db.Waiting_approval)).
Qed.

(** C6.  Approve and skip on a loop that is not waiting for approval (or does
    not exist) reject with the invalid-state error and leave the world as it
    was.  On a waiting loop, skip resolves with the status running and no
    pull request or issue on record.  Approve with a pull request on record
    whose merge fails rejects, the failure going to the caller only: it has
    written nothing, so that unless something else happened during the merge
    the store and the registry are as they were and the loop still waits
    with its pull request and issue.  Approve whose merge succeeds, or with
    no pull request to merge, resolves with the status running and no pull
    request or issue on record. *)
Theorem approve_and_skip_contract loopId m w :
  (db.status <$> getLoop loopId w <> Some db.Waiting_approval ->
   approveAndContinue loopId m w = (Rejected not_waiting, w)
   /\ skipAndContinue loopId w = (Rejected not_waiting, w))
  /\ forall l,
       getLoop loopId w = Some l ->
       db.status l = db.Waiting_approval ->
       (exists w' l',
          skipAndContinue loopId w = (Resolved (Restart loopId), w')
          /\ getLoop loopId w' = Some l'
          /\ db.status l' = db.Running
          /\ db.current_pr l' = None /\ db.current_issue l' = None)
       /\ (forall pr,
             pr_on_record l = Some pr -> merged m = false ->
             exists w',
               approveAndContinue loopId m w
               = (Rejected ("Failed to merge PR #" +:+ pretty pr), w')
               /\ w' = ext_events (merge_during m)
                         (request_merge (db.repo_owner l) (db.repo_name l) pr w)
               /\ (merge_during m = [] ->
                   store w' = store w
                   /\ activeProcesses w' = activeProcesses w
                   /\ getLoop loopId w' = Some l))
       /\ (pr_on_record l = None \/ merged m = true ->
           exists w' l',
             approveAndContinue loopId m w = (Resolved (Restart loopId), w')
             /\ getLoop loopId w' = Some l'
             /\ db.status l' = db.Running
             /\ db.current_pr l' = None /\ db.current_issue l' = None).
Proof.
  split; [apply not_waiting_rejects|].
  intros l Hl Hw. unfold approveAndContinue, skipAndContinue. rewrite Hl.
  destruct (decide (db.status l ≠ db.Waiting_approval)) as [|_]; [done|].
  split; [|split].
  - eexists _, _. split; [reflexivity|].
    split; [by rewrite getLoop_logLoop, getLoop_continue_loop, Hl|done].
  - intros pr Hpr Hm. rewrite Hpr, Hm. eexists. split; [reflexivity|].
    split; [reflexivity|]. intros ->. by rewrite <- Hl.
  - intros Hok. destruct (pr_on_record l) as [pr|].
    + destruct Hok as [|Hm]; [done|]. rewrite Hm.
      set (w1 := ext_events _ _).
      destruct (proj2 (ext_events_is_Some loopId (merge_during m)
                         (request_merge (db.repo_owner l) (db.repo_name l) pr w))
                  (mk_is_Some _ _ Hl)) as [l1 Hl1].
      fold w1 in Hl1.
      eexists _, _. split; [reflexivity|].
      split; [by rewrite getLoop_continue_loop, getLoop_logLoop, Hl1|done].
    + eexists _, _. split; [reflexivity|].
      split; [by rewrite getLoop_continue_loop, Hl|done].
Qed.

(** ** Entering the driver *)

Lemma execCommand_some cmd cwd e w :
  exists w1,
    execCommand cmd cwd (Some e) w
    = (if decide (exec_code e = Some 0) then Resolved (exec_output e)
       else Rejected ("Command failed: " +:+ cmd +:+ newline +:+ exec_output e),
       w1)
    /\ calls w1 = calls w
    /\ dirs w1 = dirs w
    /\ (forall loopId, is_Some (getLoop loopId w1) <-> is_Some (getLoop loopId w))
    /\ (exec_during e = [] -> store w1 = store w).
Proof.
  unfold execCommand. cbn [spawn].
  set (w0 := mkWorld _ _ _ _ _ _ _ _).
  exists (ext_events (exec_during e) w0). split.
  { by destruct (decide (exec_code e = Some 0)). }
  split; [by rewrite ext_events_calls|].
  split; [pose proof (ext_events_footprint (exec_during e) w0) as H; by injection H|].
  split; [intros loopId; by rewrite ext_events_is_Some|].
  by intros ->.
Qed.

(** The workspace manager changes the store no more than what happens while
    its command runs, and invokes no hook. *)
Lemma ensureWorkspace_some dir owner repo branch e w :
  exists w1 reason,
    ensureWorkspace dir owner repo branch (Some e) w
    = (if decide (exec_code e = Some 0) then Resolved () else Rejected reason, w1)
    /\ calls w1 = calls w
    /\ (forall loopId, is_Some (getLoop loopId w1) <-> is_Some (getLoop loopId w))
    /\ (exec_during e = [] -> store w1 = store w).
Proof.
  unfold ensureWorkspace.
  set (w0 := if decide (WORKSPACE_DIR ∈ dirs w) then w else _).
  assert (H0 : calls w0 = calls w /\ store w0 = store w).
  { unfold w0. by destruct (decide (WORKSPACE_DIR ∈ dirs w)). }
  destruct H0 as [Hc0 Hs0].
  assert (Hg0 : forall loopId, getLoop loopId w0 = getLoop loopId w).
  { intros loopId. unfold getLoop. by rewrite Hs0. }
  destruct (decide (dir ∈ dirs w0)).
  - destruct (execCommand_some
                ("git fetch origin && git reset --hard origin/" +:+ branch)
                (Some dir) e w0) as (w1 & -> & Hc & _ & Hg & Hs).
    exists w1. eexists.
    split; [by destruct (decide (exec_code e = Some 0))|].
    split; [congruence|]. split; [intros loopId; by rewrite Hg, Hg0|].
    intros He. by rewrite (Hs He).
  - destruct (execCommand_some
                ("git clone https://github.com/" +:+ owner +:+ "/" +:+ repo
                   +:+ ".git " +:+ dir)
                None e w0) as (w1 & -> & Hc & _ & Hg & Hs).
    exists (if decide (exec_code e = Some 0)
            then with_dirs (union {[dir]}) w1 else w1). eexists.
    split; [by destruct (decide (exec_code e = Some 0))|].
    destruct (decide (exec_code e = Some 0)).
    + split; [exact (eq_trans Hc Hc0)|].
      split; [intros loopId; rewrite <- Hg0, <- Hg; reflexivity|].
      intros He. exact (eq_trans (Hs He) Hs0).
    + split; [exact (eq_trans Hc Hc0)|].
      split; [intros loopId; by rewrite Hg, Hg0|].
      intros He. exact (eq_trans (Hs He) Hs0).
Qed.

(** A failing workspace command makes the invocation reject before the loop
    is marked running: the driver has written nothing to the store and
    invoked no hook. *)
Lemma workspace_failure_rejects cfg loopId callbacks env w l repoConfig key e :
  getLoop loopId w = Some l ->
  config.getRepo cfg (db.repo_owner l) (db.repo_name l) = Some repoConfig ->
  config.getFactoryKey cfg (db.started_by l) = Some key ->
  workspace env = Some e ->
  exec_code e <> Some 0 ->
  exists reason w',
    startLoop cfg loopId callbacks env w = (Rejected reason, w')
    /\ calls w' = calls w
    /\ (exec_during e = [] -> store w' = store w).
Proof.
  intros Hl Hr Hk He Hcode. unfold startLoop. rewrite Hl, Hr, Hk, He.
  destruct (ensureWorkspace_some
              (join WORKSPACE_DIR (db.repo_owner l +:+ "-" +:+ db.repo_name l))
              (db.repo_owner l) (db.repo_name l) (config.default_branch repoConfig)
              e w) as (w1 & reason & -> & Hc & _ & Hs).
  destruct (decide (exec_code e = Some 0)); [done|].
  by exists reason, w1.
Qed.

(** An invocation of the driver that gets as far as its loop starts the loop
    variable at 1, whatever [iteration_current] the row holds: with the first
    process launched, the counter on record is 1. *)
Lemma startLoop_counts_from_one cfg loopId callbacks env w l repoConfig key e :
  getLoop loopId w = Some l ->
  config.getRepo cfg (db.repo_owner l) (db.repo_name l) = Some repoConfig ->
  config.getFactoryKey cfg (db.started_by l) = Some key ->
  workspace env = Some e ->
  exec_code e = Some 0 ->
  1 <= db.iteration_max l ->
  runs env = [] ->
  exists w',
    startLoop cfg loopId callbacks env w = (Unsettled, w')
    /\ db.iteration_current <$> getLoop loopId w' = Some 1
    /\ is_Some (activeProcesses w' !! loopId).
Proof.
  intros Hl Hr Hk He Hcode Hmax Hruns. unfold startLoop. rewrite Hl, Hr, Hk, He, Hruns.
  destruct (ensureWorkspace_some
              (join WORKSPACE_DIR (db.repo_owner l +:+ "-" +:+ db.repo_name l))
              (db.repo_owner l) (db.repo_name l) (config.default_branch repoConfig)
              e w) as (w1 & reason & -> & _ & Hg & _).
  destruct (decide (exec_code e = Some 0)); [|done].
  destruct (proj2 (Hg loopId) (mk_is_Some _ _ Hl)) as [l1 Hl1].
  rewrite seqZ_cons by lia.
  set (w4 := call _ _ _).
  assert (H4 : getLoop loopId w4
               = Some (db.set_fields
                         [db.status_ db.Running; db.started_at_ (Some (clock w1))] l1)).
  { unfold w4. by rewrite getLoop_call, getLoop_logLoop, getLoop_updateLoop, Hl1. }
  unfold drive. cbn [for_loop head]. unfold iteration. rewrite H4.
  cbn [db.status db.set_fields]. 
  eexists. split; [reflexivity|]. split.
  - cbn [runIteration spawn snd]. rewrite getLoop_with_activeProcesses.
    change (db.iteration_current <$>
              getLoop loopId (updateLoop loopId [db.iteration_current_ 1] w4) = Some 1).
    by rewrite getLoop_updateLoop, H4.
  - cbn [runIteration spawn snd activeProcesses with_activeProcesses].
    rewrite lookup_insert_eq. by eexists.
Qed.

(** The driver marks the loop running whatever status it finds on the row
    once the workspace command has succeeded, a status written while that
    command ran included: with the first process launched, the loop is
    running. *)
Lemma startLoop_marks_running cfg loopId callbacks env w l repoConfig key e :
  getLoop loopId w = Some l ->
  config.getRepo cfg (db.repo_owner l) (db.repo_name l) = Some repoConfig ->
  config.getFactoryKey cfg (db.started_by l) = Some key ->
  workspace env = Some e ->
  exec_code e = Some 0 ->
  1 <= db.iteration_max l ->
  runs env = [] ->
  exists w',
    startLoop cfg loopId callbacks env w = (Unsettled, w')
    /\ db.status <$> getLoop loopId w' = Some db.Running.
Proof.
  intros Hl Hr Hk He Hcode Hmax Hruns. unfold startLoop. rewrite Hl, Hr, Hk, He, Hruns.
  destruct (ensureWorkspace_some
              (join WORKSPACE_DIR (db.repo_owner l +:+ "-" +:+ db.repo_name l))
              (db.repo_owner l) (db.repo_name l) (config.default_branch repoConfig)
              e w) as (w1 & reason & -> & _ & Hg & _).
  destruct (decide (exec_code e = Some 0)); [|done].
  destruct (proj2 (Hg loopId) (mk_is_Some _ _ Hl)) as [l1 Hl1].
  rewrite seqZ_cons by lia.
  set (w4 := call _ _ _).
  assert (H4 : getLoop loopId w4
               = Some (db.set_fields
                         [db.status_ db.Running; db.started_at_ (Some (clock w1))] l1)).
  { unfold w4. by rewrite getLoop_call, getLoop_logLoop, getLoop_updateLoop, Hl1. }
  unfold drive. cbn [for_loop head]. unfold iteration. rewrite H4.
  cbn [db.status db.set_fields].
  eexists. split; [reflexivity|].
  cbn [runIteration spawn snd]. rewrite getLoop_with_activeProcesses.
  change (db.status <$>
            getLoop loopId (updateLoop loopId [db.iteration_current_ 1] w4)
          = Some db.Running).
  by rewrite getLoop_updateLoop, H4.
Qed.

(** * The claims on the scenarios *)

Import scenario.

(** C1.  The loop waits for approval with two of its three iterations used.
    Approve (the merge succeeding) and skip both set it running and submit a
    new invocation of the driver; that invocation launches its first process
    with [iteration_current] written back to 1 and logs iteration 1 of 3:
    it starts over instead of going on from 3. *)
Theorem resumed_driver_restarts_at_one :
  on_record db.status waiting_at_2 = Some db.Waiting_approval
  /\ on_record db.iteration_current waiting_at_2 = Some 2
  /\ on_record db.iteration_max waiting_at_2 = Some 3
  /\ (let approved := approveAndContinue "L1" (mkMerge [] true) waiting_at_2 in
      let resumed :=
        run_detached cfg (Restart "L1") (mkEnv (Some ok) []) approved.2 in
      approved.1 = Resolved (Restart "L1")
      /\ resumed.1 = Unsettled
      /\ on_record db.iteration_current resumed.2 = Some 1
      /\ db.message <$> head (db.loop_logs (store resumed.2))
         = Some "Starting iteration 1/3")
  /\ (let skipped := skipAndContinue "L1" waiting_at_2 in
      let resumed :=
        run_detached cfg (Restart "L1") (mkEnv (Some ok) []) skipped.2 in
      skipped.1 = Resolved (Restart "L1")
      /\ resumed.1 = Unsettled
      /\ on_record db.iteration_current resumed.2 = Some 1
      /\ db.message <$> head (db.loop_logs (store resumed.2))
         = Some "Starting iteration 1/3").
Proof. vm_compute. repeat split. Qed.

(** C7.  A pending loop whose repository cannot be cloned: the invocation of
    the driver rejects, and the loop is still pending, with no error on
    record and no hook invoked. *)
Theorem workspace_failure_leaves_loop_pending :
  let w := world (row db.Pending db.Auto 0 3) in
  let started := startLoop cfg "L1" observer (mkEnv (Some clone_fails) []) w in
  (exists reason, started.1 = Rejected reason)
  /\ on_record db.status started.2 = Some db.Pending
  /\ on_record db.error started.2 = Some None
  /\ calls started.2 = [].
Proof. vm_compute. split; [by eexists|done]. Qed.

(** C2.  The driver does not leave a stopped loop alone.  Invoked on a
    stopped loop, it marks the loop running and resets its counter.  A stop
    served while the workspace command runs is undone the same way: the row
    keeps the [completed_at] of the stop, is running again, and the first
    process is launched.  And a loop stopped while its process runs is
    marked error when the killed process closes.  (The driver looks for a
    stop at the top of each iteration and before completing the loop, but
    not where it marks the loop running nor where it records a failure.) *)
Lemma driver_overwrites_terminal_status :
  (let w := world (row db.Stopped db.Auto 2 3) in
   let started := startLoop cfg "L1" no_callbacks (mkEnv (Some ok) []) w in
   terminal db.Stopped = true
   /\ on_record db.status w = Some db.Stopped
   /\ on_record db.status started.2 = Some db.Running
   /\ on_record db.iteration_current started.2 = Some 1)
  /\ (let w := world (row db.Running db.Approval 2 3) in
      let fetch := mkExec [Stop "L1"] (Some 0) "" in
      let started := startLoop cfg "L1" no_callbacks (mkEnv (Some fetch) []) w in
      started.1 = Unsettled
      /\ on_record db.completed_at started.2 = Some (Some 0%nat)
      /\ on_record db.status started.2 = Some db.Running
      /\ length (launches started.2) = 2%nat)
  /\ (let w := world (row db.Pending db.Auto 0 3) in
      let killed := mkRun [Stop "L1"] ["Terminated"] (Close None) in
      let started := startLoop cfg "L1" no_callbacks (mkEnv (Some ok) [killed]) w in
      signals started.2 = [(1%nat, SIGTERM)]
      /\ on_record db.status started.2 = Some db.Error).
Proof. vm_compute. repeat split. Qed.

(** C3 fails as stated: an output with a pull request URL and a completion
    sentinel leaves no pull request on record, and so does one from a run
    that failed. *)
Lemma pull_request_url_not_recorded :
  text.first_match text.pull_url_at both_output = Some "42"
  /\ text.first_match text.pull_url_at pr_output = Some "42"
  /\ (let w := world (row db.Pending db.Approval 0 3) in
      let started :=
        startLoop cfg "L1" observer (mkEnv (Some ok) [prints both_output (Some 0)]) w in
      on_record db.current_pr started.2 = Some None
      /\ on_record db.status started.2 = Some db.Complete)
  /\ (let w := world (row db.Pending db.Approval 0 3) in
      let started :=
        startLoop cfg "L1" observer (mkEnv (Some ok) [prints pr_output (Some 1)]) w in
      on_record db.current_pr started.2 = Some None
      /\ on_record db.status started.2 = Some db.Error).
Proof. vm_compute. repeat split. Qed.

(** C8 fails as stated: a run that exits with code 1 and prints the marker
    [<done>] alone, which is neither spelling of the completion sentinel, is
    successful, and the loop does not end in error. *)
Lemma marker_without_sentinel_succeeds :
  let r := prints "<done>" (Some 1) in
  let w := world (row db.Pending db.Auto 0 1) in
  completion_sentinel (text.join (chunks r)) = false
  /\ (runIteration "L1" "workspaces/acme-app" "fac_1" "prompt.md" (Some r) w).1
     = Resolved "<done>"
  /\ on_record db.status (startLoop cfg "L1" observer (mkEnv (Some ok) [r]) w).2
     = Some db.Complete.
Proof. vm_compute. repeat split. Qed.


(** A stop request served while the process of iteration 1 runs, the process
    closing with code 0 all the same: the fresh read at the top of iteration
    2 finds the loop stopped, and the driver leaves without launching a
    second process and without touching the status. *)
Example stop_takes_effect_at_next_boundary :
  let w := world (row db.Pending db.Auto 0 3) in
  let r := mkRun [Stop "L1"] ["working"] (Close (Some 0)) in
  let started :=
    startLoop cfg "L1" observer (mkEnv (Some ok) [r; prints "never run" (Some 0)]) w in
  started.1 = Resolved ()
  /\ on_record db.status started.2 = Some db.Stopped
  /\ on_record db.iteration_current started.2 = Some 1
  /\ length (launches started.2) = 2%nat
  /\ db.message <$> head (db.loop_logs (store started.2))
     = Some "Loop stopped by user".
Proof. vm_compute. repeat split. Qed.

(** ** The theorems at work on the scenarios *)

(** Scenario D: the first of three iterations reports that no tasks remain. *)
Lemma completion_sentinel_completes_witness :
  let l := row db.Running db.Auto 0 3 in
  let r := prints "nothing to do <done>NO_TASKS</done>" (Some 0) in
  getLoop "L1" (world l) = Some l
  /\ halts (db.status l) = false
  /\ ending r = Close (Some 0)
  /\ completion_sentinel (text.join (chunks r)) = true
  /\ exists w' l',
       drive_L1 l [1; 2; 3] [r; prints "never run" (Some 0)] (world l) = (Resolved (), w')
       /\ getLoop "L1" w' = Some l'
       /\ db.status l' = db.Complete
       /\ head (calls w') = Some (OnComplete (Some l'))
       /\ length (launches w') = 1%nat.
Proof.
  cbv zeta. do 4 (split; [reflexivity|]).
  destruct (completion_sentinel_completes observer "L1"
              (row db.Running db.Auto 0 3) "workspaces/acme-app" "fac_1"
              (config.mkRepo "acme" "app" "main" "prompt.md") 1 [2; 3]
              (prints "nothing to do <done>NO_TASKS</done>" (Some 0))
              [prints "never run" (Some 0)]
              (world (row db.Running db.Auto 0 3))
              (row db.Running db.Auto 0 3) (Some 0)
              eq_refl eq_refl eq_refl eq_refl)
    as (w' & l' & Hd & Hg & Hs & Hc & Hla).
  exists w', l'. split; [exact Hd|]. split; [exact Hg|]. split; [exact Hs|].
  split; [exact (Hc eq_refl)|]. rewrite Hla. reflexivity.
Defined.

(** An output with both a sentinel and a pull request URL: the loop
    completes and no pull request is put on record. *)
Lemma completion_precedes_pull_request_witness :
  let l := row db.Running db.Approval 0 3 in
  let r := prints both_output (Some 0) in
  getLoop "L1" (world l) = Some l
  /\ halts (db.status l) = false
  /\ ending r = Close (Some 0)
  /\ completion_sentinel (text.join (chunks r)) = true
  /\ text.first_match text.pull_url_at (text.join (chunks r)) = Some "42"
  /\ Forall (fun e => writes_to "L1" e = false) (during r)
  /\ exists w' l',
       drive_L1 l [1; 2; 3] [r] (world l) = (Resolved (), w')
       /\ getLoop "L1" w' = Some l'
       /\ db.status l' = db.Complete
       /\ db.current_pr l' = None
       /\ db.current_issue l' = None.
Proof.
  cbv zeta. do 5 (split; [reflexivity|]). split; [constructor|].
  destruct (completion_precedes_pull_request observer "L1"
              (row db.Running db.Approval 0 3) "workspaces/acme-app" "fac_1"
              (config.mkRepo "acme" "app" "main" "prompt.md") 1 [2; 3]
              (prints both_output (Some 0)) []
              (world (row db.Running db.Approval 0 3))
              (row db.Running db.Approval 0 3) (Some 0) "42"
              eq_refl eq_refl eq_refl eq_refl eq_refl)
    as (w' & l' & Hd & Hg & Hs & _ & Hpr & _).
  exists w', l'. split; [exact Hd|]. split; [exact Hg|]. split; [exact Hs|].
  exact (Hpr (Forall_nil_2 _)).
Defined.

(** The second iteration finds the loop stopped. *)
Lemma halting_status_stops_driver_witness :
  let l := row db.Stopped db.Auto 1 3 in
  getLoop "L1" (world l) = Some l
  /\ halts (db.status l) = true
  /\ exists w',
       drive_L1 l [2; 3] [prints "never run" (Some 0)] (world l) = (Resolved (), w')
       /\ db.loops (store w') = db.loops (store (world l))
       /\ launches w' = []
       /\ calls w' = [].
Proof.
  cbv zeta. do 2 (split; [reflexivity|]).
  destruct (halting_status_stops_driver observer "L1"
              (row db.Stopped db.Auto 1 3) "workspaces/acme-app" "fac_1"
              (config.mkRepo "acme" "app" "main" "prompt.md") 2 [3]
              [prints "never run" (Some 0)]
              (world (row db.Stopped db.Auto 1 3))
              (row db.Stopped db.Auto 1 3) eq_refl eq_refl)
    as (w' & Hd & Hlo & Hla & _ & _ & Hca).
  exists w'. split; [exact Hd|]. split; [exact Hlo|]. split; [exact Hla|exact Hca].
Defined.

(** Scenario B: in approval mode the first iteration opens pull request 42
    for issue 7. *)
Lemma pull_request_is_recorded_witness :
  let l := row db.Running db.Approval 0 3 in
  let r := prints pr_output (Some 0) in
  getLoop "L1" (world l) = Some l
  /\ halts (db.status l) = false
  /\ ending r = Close (Some 0)
  /\ completion_sentinel (text.join (chunks r)) = false
  /\ text.first_match text.pull_url_at (text.join (chunks r)) = Some "42"
  /\ exists w' l',
       drive_L1 l [1; 2; 3] [r; prints "never run" (Some 0)] (world l) = (Resolved (), w')
       /\ getLoop "L1" w' = Some l'
       /\ db.current_pr l' = Some 42
       /\ db.current_issue l' = Some 7
       /\ db.status l' = db.Waiting_approval
       /\ head (calls w') = Some (OnWaitingApproval (Some l') 7 42)
       /\ length (launches w') = 1%nat.
Proof.
  cbv zeta. do 5 (split; [reflexivity|]).
  destruct (pull_request_is_recorded observer "L1"
              (row db.Running db.Approval 0 3) "workspaces/acme-app" "fac_1"
              (config.mkRepo "acme" "app" "main" "prompt.md") 1 [2; 3]
              (prints pr_output (Some 0)) [prints "never run" (Some 0)]
              (world (row db.Running db.Approval 0 3))
              (row db.Running db.Approval 0 3) (Some 0) "42"
              eq_refl eq_refl eq_refl (or_introl eq_refl) eq_refl eq_refl)
    as (w' & l' & Hg & Hpr & Hissue & Hla & Hd & Hs & Hc).
  exists w', l'. split; [exact Hd|]. split; [exact Hg|]. split; [exact Hpr|].
  split; [exact Hissue|]. split; [exact Hs|]. split; [exact (Hc eq_refl)|].
  rewrite Hla. reflexivity.
Defined.

(** Scenario E: the agent exits with code 2 and no marker. *)
Lemma run_succeeds_iff_zero_or_marker_witness :
  let l := row db.Running db.Auto 0 3 in
  let r := prints "boom" (Some 2) in
  ending r = Close (Some 2)
  /\ (exists w',
        runIteration "L1" "workspaces/acme-app" "fac_1" "prompt.md" (Some r) (world l)
        = (Rejected "Droid exited with code 2: boom", w'))
  /\ exists w' l',
       drive_L1 l [1; 2; 3] [r] (world l) = (Resolved (), w')
       /\ getLoop "L1" w' = Some l'
       /\ db.status l' = db.Error
       /\ db.error l' = Some "Droid exited with code 2: boom".
Proof.
  cbv zeta. split; [reflexivity|].
  destruct (run_succeeds_iff_zero_or_marker "L1" "workspaces/acme-app" "fac_1"
              "prompt.md" (prints "boom" (Some 2))
              (world (row db.Running db.Auto 0 3)) (Some 2) eq_refl)
    as (_ & _ & Hfail).
  destruct (Hfail ltac:(discriminate) eq_refl) as (Hrej & _ & _ & Hdrive).
  split.
  { destruct Hrej as [w0 Hrej]. exists w0. rewrite Hrej. vm_compute. reflexivity. }
  destruct (Hdrive observer (row db.Running db.Auto 0 3)
              (config.mkRepo "acme" "app" "main" "prompt.md") 1 [2; 3] []
              (row db.Running db.Auto 0 3) eq_refl eq_refl eq_refl)
    as (w' & l' & Hd & Hg & Hs & He & _).
  exists w', l'. split; [exact Hd|]. split; [exact Hg|]. split; [exact Hs|].
  rewrite He. vm_compute. reflexivity.
Defined.

(** Scenario C and its failure: approve on the waiting loop of
    [waiting_at_2], with the merge failing and with the merge succeeding. *)
Lemma approve_and_skip_contract_witness :
  exists l,
    getLoop "L1" waiting_at_2 = Some l
    /\ db.status l = db.Waiting_approval
    /\ pr_on_record l = Some 42
    /\ (exists w',
          approveAndContinue "L1" (mkMerge [] false) waiting_at_2
          = (Rejected "Failed to merge PR #42", w')
          /\ getLoop "L1" w' = Some l)
    /\ (exists w' l',
          approveAndContinue "L1" (mkMerge [] true) waiting_at_2
          = (Resolved (Restart "L1"), w')
          /\ getLoop "L1" w' = Some l'
          /\ db.status l' = db.Running
          /\ db.current_pr l' = None /\ db.current_issue l' = None).
Proof.
  destruct (getLoop "L1" waiting_at_2) as [l|] eqn:Hl; [|by vm_compute in Hl].
  assert (Hw : db.status l = db.Waiting_approval).
  { vm_compute in Hl. by injection Hl as <-. }
  assert (Hpr : pr_on_record l = Some 42).
  { vm_compute in Hl. by injection Hl as <-. }
  exists l. split; [reflexivity|]. split; [exact Hw|]. split; [exact Hpr|].
  split.
  - destruct (approve_and_skip_contract "L1" (mkMerge [] false) waiting_at_2)
      as (_ & H).
    destruct (H l Hl Hw) as (_ & Hfail & _).
    destruct (Hfail 42 Hpr eq_refl) as (w' & Ha & _ & Hsame).
    exists w'. split; [exact Ha|]. by apply Hsame.
  - destruct (approve_and_skip_contract "L1" (mkMerge [] true) waiting_at_2)
      as (_ & H).
    destruct (H l Hl Hw) as (_ & _ & Hok).
    exact (Hok (or_intror eq_refl)).
Defined.

(** * Beyond the claims *)

Import notions.

(** * More about the loop store *)

Lemma set_field_id l f : db.is_id f = false -> db.id (db.set_field l f) = db.id l.
Proof. by destruct f. Qed.

(** [updateLoop] never rewrites the primary key. *)
Lemma set_fields_id updates l : db.id (db.set_fields updates l) = db.id l.
Proof.
  unfold db.set_fields. revert l.
  induction updates as [|f updates IH]; intros l; [done|].
  rewrite filter_cons. destruct (decide (db.is_id f = false)) as [Hf|]; [|apply IH].
  simpl. rewrite IH. by apply set_field_id.
Qed.

Lemma updateLoop_keyed id updates s :
  keyed_by_id s -> keyed_by_id (db.updateLoop id updates s).
Proof.
  intros Hk k l. unfold db.updateLoop. cbn [db.loops].
  rewrite lookup_alter. destruct (decide (id = k)) as [->|].
  - destruct (db.loops s !! k) as [l0|] eqn:E; [|done].
    intros [= <-]. rewrite set_fields_id. by apply Hk.
  - apply Hk.
Qed.

(** X1.  Every write of the store keeps each row under its own [id]:
    [updateLoop] drops an [id] among its updates, so neither it nor the
    writes built on it ([completeLoop], [failLoop], [stopLoop], [startLoop])
    can move a row away from its key, and [createLoop] stores the new row
    under the [id] it returns. *)
Theorem rows_stay_under_their_id s :
  keyed_by_id s ->
  (forall id updates, keyed_by_id (db.updateLoop id updates s))
  /\ (forall id now, keyed_by_id (db.completeLoop id now s))
  /\ (forall id error now, keyed_by_id (db.failLoop id error now s))
  /\ (forall id now, keyed_by_id (db.stopLoop id now s))
  /\ (forall id threadTs now, keyed_by_id (queries.startLoop id threadTs now s))
  /\ (forall loopId message level now, keyed_by_id (db.logLoop loopId message level now s))
  /\ (forall data id l s',
        queries.createLoop data id s = Some (l, s') ->
        db.id l = id /\ keyed_by_id s').
Proof.
  intros Hk.
  split; [intros id updates; by apply updateLoop_keyed|].
  split; [intros id now; by apply updateLoop_keyed|].
  split; [intros id error now; by apply updateLoop_keyed|].
  split; [intros id now; by apply updateLoop_keyed|].
  split; [intros id threadTs now; by apply updateLoop_keyed|].
  split; [intros loopId message level now; exact Hk|].
  intros data id l s'. unfold queries.createLoop.
  destruct (db.loops s !! id) eqn:E; [done|]. unfold db.getLoop. cbn [db.loops].
  rewrite lookup_insert_eq. intros [= <- <-]. split; [done|].
  intros k l0. cbn [db.loops]. rewrite lookup_insert.
  destruct (decide (id = k)) as [->|]; [by intros [= <-]|apply Hk].
Qed.

(** X2.  [updateLoop] is an [UPDATE ... WHERE id = ?]: it adds and removes
    no row, leaves the log and every other row as they are, and does nothing
    at all when no row has the [id]. *)
Theorem updateLoop_touches_one_row id updates s :
  dom (db.loops (db.updateLoop id updates s)) = dom (db.loops s)
  /\ db.loop_logs (db.updateLoop id updates s) = db.loop_logs s
  /\ (forall other, other <> id ->
        db.getLoop other (db.updateLoop id updates s) = db.getLoop other s)
  /\ (db.getLoop id s = None -> db.updateLoop id updates s = s).
Proof.
  split; [apply dom_alter_L|]. split; [done|]. split.
  - intros other Hne. by apply lookup_alter_ne.
  - intros Hnone. destruct s as [m logs]. unfold db.updateLoop. cbn in *. f_equal.
    apply map_eq. intros k. rewrite lookup_alter.
    destruct (decide (id = k)) as [->|]; [|done]. unfold db.getLoop in Hnone. cbn in Hnone.
    by rewrite Hnone.
Qed.

Lemma in_active_statuses_active s :
  queries.in_active_statuses s <-> active s = true.
Proof.
  unfold queries.in_active_statuses. split.
  - intros [-> | [-> | [-> | ->]]]; reflexivity.
  - destruct s; intros H; try discriminate H; auto.
Qed.

Lemma getActiveLoops_lookup s id :
  queries.getActiveLoops s !! id
  = l ← db.getLoop id s; if active (db.status l) then Some l else None.
Proof.
  unfold queries.getActiveLoops, db.getLoop. rewrite map_lookup_filter.
  destruct (db.loops s !! id) as [l|]; [|done]. simpl.
  destruct (active (db.status l)) eqn:E.
  - rewrite option_guard_True; [done|]. by apply in_active_statuses_active.
  - rewrite option_guard_False; [done|]. rewrite in_active_statuses_active. by rewrite E.
Qed.

Lemma createLoop_fresh data id s :
  db.loops s !! id = None ->
  let l := queries.new_row id data in
  exists s',
    queries.createLoop data id s = Some (l, s')
    /\ db.getLoop id s' = Some l
    /\ (forall other, other <> id -> db.getLoop other s' = db.getLoop other s)
    /\ db.loop_logs s' = db.loop_logs s
    /\ db.status l = db.Pending
    /\ db.iteration_max l <> 0
    /\ queries.getActiveLoops s' = <[id := l]> (queries.getActiveLoops s)
    /\ size (queries.getLoopsForRepo (queries.repo_owner data) (queries.repo_name data) s')
       = S (size (queries.getLoopsForRepo (queries.repo_owner data)
                    (queries.repo_name data) s)).
Proof.
  intros Hfresh l. unfold queries.createLoop. rewrite Hfresh.
  unfold db.getLoop. cbn [db.loops]. rewrite lookup_insert_eq.
  eexists. split; [reflexivity|]. cbn [db.loops db.loop_logs].
  split; [apply lookup_insert_eq|]. split; [intros other Hne; by apply lookup_insert_ne|].
  split; [done|]. split; [done|]. split.
  { unfold l, queries.new_row. cbn. by destruct (queries.iteration_max data) as [[]|]. }
  split.
  - unfold queries.getActiveLoops. cbn [db.loops].
    rewrite map_filter_insert_True; [done|]. simpl. by left.
  - unfold queries.getLoopsForRepo. cbn [db.loops].
    rewrite map_filter_insert_True.
    + apply map_size_insert_None. apply map_lookup_filter_None. by left.
    + simpl. repeat split. by left.
Qed.

(** X3.  [createLoop] with an [id] already in use fails and stores nothing.
    With a fresh [id] it returns the row it stored: pending, no iteration
    run, an [iteration_max] that is never 0 (a missing or zero value becomes
    10); the other rows and the log are as before, the new loop is among the
    active loops, and its repository has one active loop more. *)
Theorem createLoop_inserts_once data id s :
  match db.loops s !! id with
  | Some _ => queries.createLoop data id s = None
  | None =>
      let l := queries.new_row id data in
      exists s',
        queries.createLoop data id s = Some (l, s')
        /\ db.getLoop id s' = Some l
        /\ (forall other, other <> id -> db.getLoop other s' = db.getLoop other s)
        /\ db.loop_logs s' = db.loop_logs s
        /\ db.status l = db.Pending
        /\ db.iteration_current l = 0
        /\ db.iteration_max l <> 0
        /\ queries.getActiveLoops s' = <[id := l]> (queries.getActiveLoops s)
        /\ size (queries.getLoopsForRepo (queries.repo_owner data)
                   (queries.repo_name data) s')
           = S (size (queries.getLoopsForRepo (queries.repo_owner data)
                        (queries.repo_name data) s))
  end.
Proof.
  destruct (db.loops s !! id) as [l0|] eqn:Hid.
  - unfold queries.createLoop. by rewrite Hid.
  - destruct (createLoop_fresh data id s Hid)
      as (s' & Hc & Hg & Ho & Hlog & Hst & Hmax & Hact & Hrepo).
    exists s'. by repeat (split; [done|]).
Qed.

Lemma getActiveLoops_after_terminal id updates s :
  (forall l, active (db.status (db.set_fields updates l)) = false) ->
  queries.getActiveLoops (db.updateLoop id updates s)
  = delete id (queries.getActiveLoops s).
Proof.
  intros Hterm. apply map_eq. intros k.
  rewrite getActiveLoops_lookup, lookup_delete.
  destruct (decide (id = k)) as [->|Hne].
  - unfold db.getLoop, db.updateLoop. cbn [db.loops]. rewrite lookup_alter_eq.
    destruct (db.loops s !! k) as [l|]; [|done]. simpl. by rewrite Hterm.
  - rewrite getActiveLoops_lookup. unfold db.getLoop, db.updateLoop. cbn [db.loops].
    by rewrite lookup_alter_ne.
Qed.

(** X4.  Completing, failing or stopping a loop takes it, and only it, out
    of the active loops. *)
Theorem finished_loops_leave_the_active_set id now error s :
  queries.getActiveLoops (db.completeLoop id now s) = delete id (queries.getActiveLoops s)
  /\ queries.getActiveLoops (db.failLoop id error now s) = delete id (queries.getActiveLoops s)
  /\ queries.getActiveLoops (db.stopLoop id now s) = delete id (queries.getActiveLoops s).
Proof. repeat split; by apply getActiveLoops_after_terminal. Qed.

(** X5.  The statuses [stopLoopProcess] treats as stoppable are the
    statuses [getActiveLoops] selects: with no process registered, a stop
    answers [true] exactly for an active loop.  After any stop the loop is
    neither active nor registered. *)
Theorem stop_agrees_with_active_set loopId w :
  (activeProcesses w !! loopId = None ->
   ((stopLoopProcess loopId w).1 = true
    <-> is_Some (queries.getActiveLoops (store w) !! loopId)))
  /\ queries.getActiveLoops (store (stopLoopProcess loopId w).2) !! loopId = None
  /\ activeProcesses (stopLoopProcess loopId w).2 !! loopId = None.
Proof.
  unfold stopLoopProcess.
  destruct (activeProcesses w !! loopId) as [proc|] eqn:Hreg.
  - split; [done|]. cbn [snd]. split.
    + change (store (stopLoop loopId ?x)) with (db.stopLoop loopId (clock x) (store x)).
      unfold db.stopLoop. rewrite getActiveLoops_after_terminal by done.
      apply lookup_delete_eq.
    + apply lookup_delete_eq.
  - rewrite getActiveLoops_lookup. unfold getLoop.
    destruct (db.getLoop loopId (store w)) as [l|] eqn:Hl; cbn [mbind option_bind].
    + destruct (active (db.status l)) eqn:Ha; cbn [fst snd].
      * split; [intros _; split; [by eexists|done]|]. split; [|done].
        change (store (stopLoop loopId ?x)) with (db.stopLoop loopId (clock x) (store x)).
        unfold db.stopLoop. rewrite getActiveLoops_after_terminal by done.
        apply lookup_delete_eq.
      * split; [intros _; split; [done|by intros [? ?]]|]. split; [|done].
        rewrite getActiveLoops_lookup, Hl. simpl. by rewrite Ha.
    + cbn [fst snd]. split; [intros _; split; [done|by intros [? ?]]|]. split; [|done].
      by rewrite getActiveLoops_lookup, Hl.
Qed.

(** * Configuration *)

(** X6.  [getRepo] returns the first repository of the configuration with
    the given owner and name, and nothing exactly when no repository has
    them. *)
Theorem getRepo_finds_first_match cfg owner name :
  match config.getRepo cfg owner name with
  | Some r =>
      config.owner r = owner /\ config.name r = name
      /\ exists before after,
           config.repos cfg = (before ++ r :: after)%list
           /\ Forall (fun r' => ~ (config.owner r' = owner /\ config.name r' = name)) before
  | None =>
      Forall (fun r' => ~ (config.owner r' = owner /\ config.name r' = name))
        (config.repos cfg)
  end.
Proof.
  unfold config.getRepo. induction (config.repos cfg) as [|r0 rs IH]; simpl.
  - constructor.
  - destruct (bool_decide (config.owner r0 = owner)) eqn:Ho;
      [destruct (bool_decide (config.name r0 = name)) eqn:Hn|]; simpl.
    + apply bool_decide_eq_true in Ho, Hn. split; [done|]. split; [done|].
      exists [], rs. split; [done|constructor].
    + apply bool_decide_eq_false in Hn.
      destruct (find _ rs) as [r|].
      * destruct IH as (? & ? & before & after & -> & Hb). split; [done|]. split; [done|].
        exists (r0 :: before), after. split; [done|]. constructor; [tauto|done].
      * constructor; [tauto|done].
    + apply bool_decide_eq_false in Ho.
      destruct (find _ rs) as [r|].
      * destruct IH as (? & ? & before & after & -> & Hb). split; [done|]. split; [done|].
        exists (r0 :: before), after. split; [done|]. constructor; [tauto|done].
      * constructor; [tauto|done].
Qed.

(** What an object inherits is never the empty text. *)
Lemma inherited_truthy key f : config.inherited key = Some f -> f <> "".
Proof.
  unfold config.inherited. intros H.
  apply fmap_Some in H as ([k v] & Hf & ->).
  apply find_some in Hf as [Hin _]. unfold config.Object_prototype in Hin.
  repeat (destruct Hin as [Hin|Hin]; [injection Hin as <- <-; by cbv|]).
  destruct Hin.
Qed.

Lemma inherited_None key :
  config.inherited key = None <-> key ∉ config.Object_prototype.*1.
Proof.
  unfold config.inherited. generalize config.Object_prototype as members.
  induction members as [|[k v] members IH]; simpl.
  - split; [intros _; apply not_elem_of_nil|done].
  - rewrite not_elem_of_cons. case_bool_decide as Hk; simpl in *.
    + split; [done|]. intros [Hne _]. by destruct Hne.
    + rewrite IH. split; [by split|by intros [_ ?]].
Qed.

(** X7.  A user's own key, when it is not empty, is the key used.  For a
    user id that names a member of [Object.prototype] and has no key of its
    own, the member is taken for the key.  Any other user without a key, and
    any user whose own key is empty, gets the default key; and there is no
    key exactly when this is so and the default is missing or empty. *)
Theorem getFactoryKey_precedence cfg userId :
  let own := config.own (config.user_keys cfg) userId in
  let fallback := config.truthy (config.default_api_key cfg) in
  (userId <> "__proto__" -> own = config.user_keys cfg !! userId)
  /\ (config.inherited userId = None <-> userId ∉ config.Object_prototype.*1)
  /\ (forall k, own = Some k -> k <> "" -> config.getFactoryKey cfg userId = Some k)
  /\ (forall f, own = None -> config.inherited userId = Some f ->
        config.getFactoryKey cfg userId = Some f)
  /\ (own = Some "" \/ (own = None /\ config.inherited userId = None) ->
        config.getFactoryKey cfg userId = fallback)
  /\ (config.getFactoryKey cfg userId = None <->
        (own = Some "" \/ (own = None /\ config.inherited userId = None))
        /\ (config.default_api_key cfg = None \/ config.default_api_key cfg = Some "")).
Proof.
  cbv zeta. split.
  { intros Hp. unfold config.own. by destruct (decide (userId = "__proto__")). }
  split; [apply inherited_None|].
  unfold config.getFactoryKey, config.property.
  pose proof (inherited_truthy userId) as Ht.
  destruct (config.own (config.user_keys cfg) userId) as [[|c k]|];
    [| |destruct (config.inherited userId) as [[|c f]|];
         [by destruct (Ht "" eq_refl)| |]];
    destruct (config.default_api_key cfg) as [[|c' k']|]; simpl;
    repeat split; try done; try (intros ? [= <-]; done); try (intros ? _ [= <-]; done);
    try (intros [[?|[? ?]] [?|?]]; done); try (by left); try (by right);
    try (intros [[?|[? ?]] _]; done); try (intros [_ [?|?]]; done);
    try (intros [?|[? ?]]; done); auto.
Qed.

(** * The text functions *)

Lemma app_assoc_string (a b c : string) : (a +:+ b) +:+ c = a +:+ (b +:+ c).
Proof.
  induction a as [|x a IH]; [done|].
  change (String x ((a +:+ b) +:+ c) = String x (a +:+ (b +:+ c))). by rewrite IH.
Qed.

Lemma prefix_spec a s :
  String.prefix a s = true <-> exists rest, s = a +:+ rest.
Proof.
  revert s. induction a as [|c a IH]; intros s.
  - split; [intros _; by exists s|intros _; by destruct s].
  - destruct s as [|c' s]; simpl.
    + split; [done|intros [rest H]; discriminate H].
    + destruct (ascii_dec c c') as [->|Hne].
      * rewrite IH. split; intros [rest H]; exists rest.
        -- by rewrite H.
        -- by injection H.
      * split; [done|]. intros [rest H]. injection H as H1 _. by destruct Hne.
Qed.

(** X8.  [includes] is the substring test: a text includes a needle exactly
    when it is some text, the needle, and some more text. *)
Theorem includes_is_substring s needle :
  text.includes s needle = true
  <-> exists front rest, s = front +:+ needle +:+ rest.
Proof.
  induction s as [|c s IH]; rewrite includes_unfold, orb_true_iff, prefix_spec.
  - split.
    + intros [[rest H]|H]; [|done]. by exists "", rest.
    + intros (front & rest & H). left. destruct front; [by exists rest|discriminate H].
  - rewrite IH. split.
    + intros [[rest H]|(front & rest & H)].
      * by exists "", rest.
      * exists (String c front), rest. by rewrite H.
    + intros (front & rest & H). destruct front as [|c' front].
      * left. by exists rest.
      * right. injection H as _ H. by exists front, rest.
Qed.

Lemma digit_value_range c :
  text.is_digit c = true -> 0 <= text.digit_value c <= 9.
Proof.
  unfold text.is_digit, text.digit_value. intros H.
  apply andb_true_iff in H as [H1 H2].
  apply Nat.leb_le in H1, H2. lia.
Qed.

Lemma parseInt_from_nonneg digits acc :
  all_digits digits = true -> 0 <= acc -> 0 <= text.parseInt_from acc digits.
Proof.
  revert acc. induction digits as [|c digits IH]; intros acc Hd Hacc; [done|].
  simpl in Hd. apply andb_true_iff in Hd as [Hc Hd]. simpl. apply IH; [done|].
  pose proof (digit_value_range c Hc). lia.
Qed.

(** The value of a digit string read after the digits of [acc]. *)
Lemma parseInt_from_shift digits acc :
  text.parseInt_from acc digits
  = acc * 10 ^ Z.of_nat (String.length digits) + text.parseInt_from 0 digits.
Proof.
  revert acc. induction digits as [|c digits IH]; intros acc; simpl; [lia|].
  rewrite (IH (10 * acc + text.digit_value c)), (IH (10 * 0 + text.digit_value c)).
  rewrite Nat2Z.inj_succ, Z.pow_succ_r by lia. lia.
Qed.

Lemma digit_value_pretty_N_char d :
  (d < 10)%N -> text.digit_value (pretty_N_char d) = Z.of_N d.
Proof.
  intros Hd.
  assert (d = 0 \/ d = 1 \/ d = 2 \/ d = 3 \/ d = 4 \/ d = 5 \/ d = 6
          \/ d = 7 \/ d = 8 \/ d = 9)%N as H by lia.
  repeat (destruct H as [-> | H]; [reflexivity|]). by rewrite H.
Qed.

Lemma is_digit_pretty_N_char d : text.is_digit (pretty_N_char d) = true.
Proof. unfold pretty_N_char. by repeat case_match. Qed.

Lemma parseInt_pretty_N_go x s :
  text.parseInt_from 0 (pretty_N_go x s)
  = Z.of_N x * 10 ^ Z.of_nat (String.length s) + text.parseInt_from 0 s.
Proof.
  revert s. induction (N.lt_wf_0 x) as [x _ IH]; intros s.
  assert (x = 0 \/ 0 < x)%N as [-> | Hx] by lia.
  - rewrite pretty_N_go_0. lia.
  - rewrite pretty_N_go_step by done.
    rewrite IH by (by apply N.div_lt). simpl String.length. simpl text.parseInt_from.
    rewrite (parseInt_from_shift s (10 * 0 + _)).
    rewrite digit_value_pretty_N_char by (by apply N.mod_lt).
    rewrite Nat2Z.inj_succ, Z.pow_succ_r by lia.
    assert (Hdm : Z.of_N x = 10 * Z.of_N (x `div` 10) + Z.of_N (x `mod` 10)).
    { pose proof (N.div_mod x 10 ltac:(done)) as H.
      apply (f_equal Z.of_N) in H. rewrite N2Z.inj_add, N2Z.inj_mul in H. exact H. }
    rewrite Hdm. ring.
Qed.

Lemma all_digits_pretty_N_go x s :
  all_digits s = true -> all_digits (pretty_N_go x s) = true.
Proof.
  revert s. induction (N.lt_wf_0 x) as [x _ IH]; intros s Hs.
  assert (x = 0 \/ 0 < x)%N as [-> | Hx] by lia.
  - by rewrite pretty_N_go_0.
  - rewrite pretty_N_go_step by done. apply IH; [by apply N.div_lt|].
    simpl. by rewrite is_digit_pretty_N_char.
Qed.

Lemma pretty_N_go_nonempty x s : (0 < x)%N -> pretty_N_go x s <> "".
Proof.
  revert s. induction (N.lt_wf_0 x) as [x _ IH]; intros s Hx.
  rewrite pretty_N_go_step by done.
  destruct (N.eq_0_gt_0_cases (x `div` 10)) as [-> | Hd].
  - by rewrite pretty_N_go_0.
  - apply IH; [by apply N.div_lt|done].
Qed.

(** The decimal text of a number that is not negative: digits, at least
    one, that read back as the number. *)
Lemma pretty_nonneg n :
  0 <= n ->
  pretty n <> "" /\ all_digits (pretty n) = true /\ text.parseInt (pretty n) = n.
Proof.
  intros Hn. destruct n as [|p|p]; [done| |lia].
  unfold pretty, pretty_Z, pretty, pretty_positive, pretty, pretty_N.
  destruct (decide (N.pos p = 0%N)) as [|_]; [done|].
  split; [by apply pretty_N_go_nonempty|].
  split; [by apply all_digits_pretty_N_go|].
  unfold text.parseInt. rewrite parseInt_pretty_N_go. simpl. lia.
Qed.

(** X9.  [parseInt] reads the decimal text of a number back as that
    number, for the numbers from 0 to [Number.MAX_SAFE_INTEGER]. *)
Theorem parseInt_reads_back n : safe_integer n -> text.parseInt (pretty n) = n.
Proof. intros [Hn _]. by apply pretty_nonneg. Qed.

Lemma strip_app lit s : text.strip lit (lit +:+ s) = Some s.
Proof.
  induction lit as [|c lit IH]; [by destruct s|].
  change (String c lit +:+ s) with (String c (lit +:+ s)). simpl.
  by rewrite Ascii.eqb_refl.
Qed.

(** A run of characters of a class, followed by the end of the text or by a
    character outside the class, is what [span] takes. *)
Lemma span_app p a rest :
  (forall c, In c (String.list_ascii_of_string a) -> p c = true) ->
  match rest with EmptyString => True | String c _ => p c = false end ->
  text.span p (a +:+ rest) = (a, rest).
Proof.
  intros Ha Hrest. induction a as [|c a IH].
  - destruct rest as [|c rest]; [done|]. simpl. by rewrite Hrest.
  - change (String c a +:+ rest) with (String c (a +:+ rest)). simpl.
    rewrite (Ha c) by (by left). rewrite IH; [done|].
    intros c' Hc'. apply Ha. by right.
Qed.

Lemma run1_app p a rest :
  a <> "" ->
  (forall c, In c (String.list_ascii_of_string a) -> p c = true) ->
  match rest with EmptyString => True | String c _ => p c = false end ->
  text.run1 p (a +:+ rest) = Some (a, rest).
Proof.
  intros Hne Ha Hrest. unfold text.run1. rewrite span_app by done. by destruct a.
Qed.

Lemma all_digits_In s c :
  all_digits s = true -> In c (String.list_ascii_of_string s) -> text.is_digit c = true.
Proof.
  induction s as [|c' s IH]; simpl; [done|].
  intros H [<- | Hin]; apply andb_true_iff in H as [H1 H2]; [done|by apply IH].
Qed.

Lemma no_slash_In s c :
  no_slash s = true -> In c (String.list_ascii_of_string s) -> text.not_slash c = true.
Proof.
  induction s as [|c' s IH]; simpl; [done|].
  intros H [<- | Hin]; apply andb_true_iff in H as [H1 H2]; [done|by apply IH].
Qed.

Lemma pull_url_at_reads owner repo digits rest :
  owner <> "" -> repo <> "" ->
  no_slash owner = true -> no_slash repo = true ->
  digits <> "" -> all_digits digits = true -> ends_number rest = true ->
  text.pull_url_at
    ("https://github.com/" +:+ owner +:+ "/" +:+ repo +:+ "/pull/" +:+ digits +:+ rest)
  = Some digits.
Proof.
  intros Ho Hr Hso Hsr Hd Hdd Hrest. unfold text.pull_url_at.
  rewrite strip_app. cbn [mbind option_bind].
  rewrite (run1_app text.not_slash owner);
    [|done|intros c; by apply no_slash_In|reflexivity].
  cbn [mbind option_bind]. rewrite (strip_app "/"). cbn [mbind option_bind].
  rewrite (run1_app text.not_slash repo);
    [|done|intros c; by apply no_slash_In|reflexivity].
  cbn [mbind option_bind]. rewrite (strip_app "/pull/"). cbn [mbind option_bind].
  rewrite (run1_app text.is_digit digits);
    [done|done|intros c; by apply all_digits_In|].
  destruct rest as [|c rest]; [done|]. simpl in Hrest. by destruct (text.is_digit c).
Qed.

(** A pattern that matches at some position of a text matches the text. *)
Lemma first_match_finds at_front front s g :
  at_front s = Some g -> is_Some (text.first_match at_front (front +:+ s)).
Proof.
  intros Hs. induction front as [|c front IH].
  - destruct s; simpl; rewrite Hs; by eexists.
  - change (String c front +:+ s) with (String c (front +:+ s)). simpl.
    destruct (at_front (String c (front +:+ s))); [by eexists|exact IH].
Qed.

Lemma first_match_at_front at_front s g :
  at_front s = Some g -> text.first_match at_front s = Some g.
Proof. intros Hs. destruct s; simpl; by rewrite Hs. Qed.

(** X10.  The URL of pull request [n] of a repository, followed by the end
    of the output or by anything that is not a digit, is matched, and what
    is captured is the decimal text of [n]; it is read back as [n] for [n] up
    to [Number.MAX_SAFE_INTEGER]; and wherever such a URL stands in an
    output, the output has a pull request match. *)
Theorem pull_url_round_trip owner repo n front rest :
  owner <> "" -> repo <> "" ->
  no_slash owner = true -> no_slash repo = true ->
  0 <= n -> ends_number rest = true ->
  text.first_match text.pull_url_at (pull_url owner repo n +:+ rest) = Some (pretty n)
  /\ (n <= MAX_SAFE_INTEGER ->
      text.parseInt
        <$> text.first_match text.pull_url_at (pull_url owner repo n +:+ rest)
      = Some n)
  /\ is_Some (text.first_match text.pull_url_at
                (front +:+ pull_url owner repo n +:+ rest)).
Proof.
  intros Ho Hr Hso Hsr Hn Hrest.
  destruct (pretty_nonneg n Hn) as (Hne & Hd & Hp).
  assert (Hat : text.pull_url_at (pull_url owner repo n +:+ rest) = Some (pretty n)).
  { unfold pull_url. rewrite !app_assoc_string. by apply pull_url_at_reads. }
  split; [exact (first_match_at_front _ _ _ Hat)|]. split.
  - intros _. rewrite (first_match_at_front _ _ _ Hat). simpl. by rewrite Hp.
  - by apply first_match_finds with (pretty n).
Qed.

Lemma run1_digits s d rest :
  text.run1 text.is_digit s = Some (d, rest) -> d <> "" /\ all_digits d = true.
Proof.
  unfold text.run1. destruct (text.span text.is_digit s) as [d' rest'] eqn:E.
  destruct d' as [|c d']; [done|]. intros [= <- <-]. split; [done|].
  clear -E. revert c d' rest' E.
  induction s as [|c0 s IH]; intros c d' rest' E; simpl in E; [done|].
  destruct (text.is_digit c0) eqn:Hc0; [|done].
  destruct (text.span text.is_digit s) as [a b] eqn:Es. injection E as <- <- <-.
  simpl. rewrite Hc0. simpl. destruct a as [|c1 a]; [done|]. by apply (IH c1 a b).
Qed.

Lemma first_match_inv at_front s g :
  text.first_match at_front s = Some g -> exists front s', s = front +:+ s' /\ at_front s' = Some g.
Proof.
  induction s as [|c s IH]; simpl.
  - destruct (at_front "") eqn:E; [|done]. intros [= <-]. by exists "", "".
  - destruct (at_front (String c s)) eqn:E.
    + intros [= <-]. by exists "", (String c s).
    + intros H. destruct (IH H) as (front & s' & -> & Hs'). by exists (String c front), s'.
Qed.

(** X11.  What the two patterns capture is a string of decimal digits, at
    least one: the pull request and issue numbers the driver records are
    never negative. *)
Theorem captured_numbers_are_decimal s d :
  text.first_match text.pull_url_at s = Some d
  \/ text.first_match text.issue_ref_at s = Some d ->
  d <> "" /\ all_digits d = true /\ 0 <= text.parseInt d.
Proof.
  assert (Hgoal : d <> "" /\ all_digits d = true ->
                  d <> "" /\ all_digits d = true /\ 0 <= text.parseInt d).
  { intros [H1 H2]. split; [done|]. split; [done|]. by apply parseInt_from_nonneg. }
  intros [H|H]; apply Hgoal; apply first_match_inv in H as (front & s' & _ & H).
  - unfold text.pull_url_at in H.
    destruct (text.strip _ s') as [t0|]; [|done]. cbn [mbind option_bind] in H.
    destruct (text.run1 _ t0) as [[? t1]|]; [|done]. cbn [mbind option_bind] in H.
    destruct (text.strip _ t1) as [t2|]; [|done]. cbn [mbind option_bind] in H.
    destruct (text.run1 _ t2) as [[? t3]|]; [|done]. cbn [mbind option_bind] in H.
    destruct (text.strip _ t3) as [t4|]; [|done]. cbn [mbind option_bind] in H.
    destruct (text.run1 _ t4) as [[d' rest]|] eqn:E; [|done].
    cbn [mbind option_bind] in H. injection H as <-. by apply run1_digits in E.
  - unfold text.issue_ref_at in H.
    destruct (text.strip _ s') as [t0|]; [|done]. cbn [mbind option_bind] in H.
    destruct (text.run1 _ t0) as [[d' rest]|] eqn:E; [|done].
    cbn [mbind option_bind] in H. injection H as <-. by apply run1_digits in E.
Qed.

(** * What an invocation of the driver does to the world *)

Lemma extends_refl {A} (l : list A) : extends l l.
Proof. by exists []. Qed.

Lemma extends_cons {A} (x : A) new old : extends new old -> extends (x :: new) old.
Proof. intros [added ->]. by exists (x :: added). Qed.

Lemma extends_trans {A} (l1 l2 l3 : list A) :
  extends l2 l1 -> extends l3 l2 -> extends l3 l1.
Proof. intros [a ->] [b ->]. exists (b ++ a)%list. by rewrite app_assoc. Qed.

Lemma stopLoopProcess_logs loopId w :
  db.loop_logs (store (stopLoopProcess loopId w).2) = db.loop_logs (store w).
Proof.
  unfold stopLoopProcess.
  destruct (activeProcesses w !! loopId); [done|].
  destruct (getLoop loopId w) as [l|]; [|done].
  by destruct (active (db.status l)).
Qed.

Lemma stopLoopProcess_dom loopId w :
  dom (db.loops (store (stopLoopProcess loopId w).2)) = dom (db.loops (store w)).
Proof.
  unfold stopLoopProcess.
  destruct (activeProcesses w !! loopId); [apply dom_alter_L|].
  destruct (getLoop loopId w) as [l|]; [|done].
  destruct (active (db.status l)); [apply dom_alter_L|done].
Qed.

Section Advance.

Variable ok : Call -> bool.

Lemma advance_refl k w : advance ok k w w.
Proof.
  split; [lia|]. split; [apply extends_refl|]. split; [|done].
  exists []. by split.
Qed.

Lemma advance_trans k1 k2 w1 w2 w3 :
  advance ok k1 w1 w2 -> advance ok k2 w2 w3 -> advance ok (k1 + k2) w1 w3.
Proof.
  intros (L1 & G1 & (a1 & C1 & F1) & D1) (L2 & G2 & (a2 & C2 & F2) & D2).
  split; [lia|]. split; [by eapply extends_trans|]. split; [|congruence].
  exists (a2 ++ a1)%list. split; [by rewrite C2, C1, app_assoc|].
  by apply Forall_app.
Qed.

Lemma advance_le k k' w w' : (k <= k')%nat -> advance ok k w w' -> advance ok k' w w'.
Proof. intros Hk (L & G & C & D). split; [lia|done]. Qed.

(** The steps that cost nothing. *)
Lemma advance_updateLoop k w x loopId updates :
  advance ok k w x -> advance ok k w (updateLoop loopId updates x).
Proof.
  intros (L & G & C & D). split; [done|]. split; [done|]. split; [done|].
  rewrite <- D. apply dom_alter_L.
Qed.

Lemma advance_logLoop k w x loopId message level :
  advance ok k w x -> advance ok k w (logLoop loopId message level x).
Proof.
  intros (L & G & C & D). split; [exact L|].
  split; [exact (extends_cons _ _ _ G)|]. split; [exact C|exact D].
Qed.

Lemma advance_call k w x supplied c :
  (supplied = true -> ok c = true) ->
  advance ok k w x -> advance ok k w (call supplied c x).
Proof.
  intros Hc H. destruct supplied; [|exact H].
  destruct H as (L & G & (added & C & F) & D).
  split; [exact L|]. split; [exact G|]. split; [|exact D].
  exists (c :: added). cbn [call calls]. rewrite C. split; [done|].
  constructor; [by apply Hc|done].
Qed.

Lemma advance_with_activeProcesses k w x f :
  advance ok k w x -> advance ok k w (with_activeProcesses f x).
Proof. intros H. exact H. Qed.

Lemma advance_with_dirs k w x f : advance ok k w x -> advance ok k w (with_dirs f x).
Proof. intros H. exact H. Qed.

Lemma advance_ext_event k w x e :
  advance ok k w x -> advance ok k w (ext_event x e).
Proof.
  intros (L & G & C & D).
  pose proof (ext_event_footprint x e) as Hf. injection Hf as Hla Hca _ _.
  split; [by rewrite Hla|].
  destruct e as [other|other updates|]; simpl.
  - rewrite stopLoopProcess_logs, stopLoopProcess_dom.
    split; [done|]. split; [|done]. by rewrite <- Hca in C.
  - split; [done|]. split; [done|]. rewrite <- D. apply dom_alter_L.
  - split; [exact G|]. split; [exact C|exact D].
Qed.

Lemma advance_ext_events k w x es :
  advance ok k w x -> advance ok k w (ext_events es x).
Proof.
  revert x. induction es as [|e es IH]; intros x Hx; [done|].
  unfold ext_events in *. simpl. apply IH. by apply advance_ext_event.
Qed.

(** A launch costs one. *)
Lemma advance_spawn k w x l :
  advance ok k w x -> advance ok (S k) w (spawn l x).2.
Proof.
  intros (L & G & C & D). split; [cbn; lia|].
  split; [exact G|]. split; [exact C|exact D].
Qed.

End Advance.

Section DriverAdvance.

Variable callbacks : LoopCallbacks.
Variable loopId : string.
Variable loop : db.Loop.
Variables workspaceDir factoryKey : string.
Variable repoConfig : config.Repo.

Abbreviation ok := (allowed callbacks (db.mode loop)).

Lemma classify_advance k w x i output :
  advance ok k w x -> advance ok k w (classify callbacks loopId loop i output x).2.
Proof.
  intros H. unfold classify.
  assert (H1 : advance ok k w
                 (call (onIteration callbacks)
                    (OnIteration (getLoop loopId x) i output) x)).
  { apply advance_call; [intros Hs; exact Hs|exact H]. }
  destruct (completion_sentinel output).
  { cbn [snd]. apply advance_call; [intros Hs; exact Hs|].
    apply advance_logLoop. by apply advance_updateLoop. }
  destruct (text.first_match text.pull_url_at output) as [digits|]; [|exact H1].
  destruct (decide (db.mode loop = db.Approval)) as [Hm|Hm]; cbn [snd].
  - apply advance_call.
    { intros Hs. cbn [allowed]. rewrite Hs. by rewrite bool_decide_eq_true_2. }
    apply advance_logLoop. by do 2 apply advance_updateLoop.
  - apply advance_call.
    { intros Hs. cbn [allowed]. rewrite Hs. rewrite bool_decide_eq_true_2; [done|].
      by destruct (db.mode loop). }
    by apply advance_updateLoop.
Qed.

Lemma on_error_advance k w x errorMsg :
  advance ok k w x -> advance ok k w (on_error callbacks loopId errorMsg x).2.
Proof.
  intros H. unfold on_error. cbn [snd]. apply advance_call; [intros Hs; exact Hs|].
  apply advance_logLoop. by apply advance_updateLoop.
Qed.

Lemma after_loop_advance k w x :
  advance ok k w x -> advance ok k w (after_loop callbacks loopId loop x).2.
Proof.
  intros H. unfold after_loop. destruct (getLoop loopId x) as [l|]; [|exact H].
  destruct (decide (db.status l = db.Running)); [|exact H].
  cbn [snd]. apply advance_call; [intros Hs; exact Hs|].
  apply advance_logLoop. by apply advance_updateLoop.
Qed.

Lemma runIteration_advance k w x promptPath r :
  advance ok k w x ->
  advance ok (S k) w (runIteration loopId workspaceDir factoryKey promptPath r x).2.
Proof.
  intros H. unfold runIteration.
  pose proof (advance_spawn ok k w x
                (mkLaunch ["droid"; "exec"; "--auto"; "high"; "-f"; promptPath]
                   (Some workspaceDir) (Some factoryKey)) H) as Hs.
  destruct (spawn _ x) as [proc w1]. cbn [snd] in Hs.
  destruct r as [r|]; [|exact Hs].
  assert (Hc : advance ok (S k) w
                 (with_activeProcesses (delete loopId)
                    (ext_events (during r)
                       (with_activeProcesses <[loopId:=proc]> w1)))).
  { apply advance_with_activeProcesses, advance_ext_events.
    by apply advance_with_activeProcesses. }
  destruct (ending r) as [code|message]; [|exact Hc].
  by destruct (bool_decide (code = Some 0) || text.includes (text.join (chunks r)) "<done>").
Qed.

Lemma iteration_advance k w x i r :
  advance ok k w x ->
  advance ok (S k) w
    (iteration callbacks loopId loop workspaceDir factoryKey repoConfig i r x).2.
Proof.
  intros H. unfold iteration.
  destruct (getLoop loopId x) as [l|]; [|by apply advance_le with k; [lia|]].
  destruct (decide (db.status l = db.Stopped)).
  { cbn [snd]. apply advance_le with k; [lia|]. by apply advance_logLoop. }
  destruct (decide (db.status l = db.Paused \/ db.status l = db.Waiting_approval)).
  { cbn [snd]. apply advance_le with k; [lia|]. by apply advance_logLoop. }
  set (x2 := logLoop loopId _ db.info (updateLoop loopId _ x)).
  assert (H2 : advance ok k w x2).
  { apply advance_logLoop. by apply advance_updateLoop. }
  pose proof (runIteration_advance k w x2 (config.prompt_path repoConfig) r H2) as Hr.
  destruct (runIteration _ _ _ _ r x2) as [[output|errorMsg|] w1]; cbn [snd] in Hr.
  - by apply classify_advance.
  - by apply on_error_advance.
  - exact Hr.
Qed.

Lemma for_loop_advance js : forall k w x rs,
  advance ok k w x ->
  advance ok (k + length js) w
    (for_loop callbacks loopId loop workspaceDir factoryKey repoConfig js rs x).2.
Proof.
  induction js as [|i js IH]; intros k w x rs H.
  - apply advance_le with k; [lia|exact H].
  - cbn [for_loop].
    pose proof (iteration_advance k w x i (head rs) H) as Hi.
    destruct (iteration _ _ _ _ _ _ i (head rs) x) as [[] w1]; cbn [snd] in Hi |- *;
      try (apply advance_le with (S k); [cbn [length]; lia|exact Hi]).
    replace (k + length (i :: js))%nat with (S k + length js)%nat by (cbn [length]; lia).
    by apply IH.
Qed.

Lemma drive_advance js k w x rs :
  advance ok k w x ->
  advance ok (k + length js) w
    (drive callbacks loopId loop workspaceDir factoryKey repoConfig js rs x).2.
Proof.
  intros H. unfold drive.
  pose proof (for_loop_advance js k w x rs H) as Hf.
  destruct (for_loop _ _ _ _ _ _ js rs x) as [[] w1]; cbn [snd] in Hf |- *;
    try exact Hf; by apply after_loop_advance.
Qed.

End DriverAdvance.

Lemma execCommand_advance okc k w x cmd cwd o :
  advance okc k w x -> advance okc (S k) w (execCommand cmd cwd o x).2.
Proof.
  intros H. unfold execCommand.
  pose proof (advance_spawn okc k w x (mkLaunch ["sh"; "-c"; cmd] cwd None) H) as Hs.
  destruct (spawn _ x) as [proc w1]. cbn [snd] in Hs.
  destruct o as [e|]; [|exact Hs].
  destruct (decide (exec_code e = Some 0)); cbn [snd]; by apply advance_ext_events.
Qed.

Lemma ensureWorkspace_advance okc k w x dir owner repo branch o :
  advance okc k w x ->
  advance okc (S k) w (ensureWorkspace dir owner repo branch o x).2.
Proof.
  intros H. unfold ensureWorkspace.
  set (x0 := if decide (WORKSPACE_DIR ∈ dirs x) then x else _).
  assert (H0 : advance okc k w x0).
  { unfold x0. destruct (decide (WORKSPACE_DIR ∈ dirs x)); [exact H|].
    by apply advance_with_dirs. }
  destruct (decide (dir ∈ dirs x0)).
  - pose proof (execCommand_advance okc k w x0
                  ("git fetch origin && git reset --hard origin/" +:+ branch)
                  (Some dir) o H0) as He.
    destruct (execCommand _ _ o x0) as [[?|?|] w1]; exact He.
  - pose proof (execCommand_advance okc k w x0
                  ("git clone https://github.com/" +:+ owner +:+ "/" +:+ repo
                     +:+ ".git " +:+ dir) None o H0) as He.
    destruct (execCommand _ _ o x0) as [[?|?|] w1]; cbn [snd] in *;
      [by apply advance_with_dirs|exact He|exact He].
Qed.

(** What one invocation of the driver does to the world, whatever the
    oracles answer. *)
Lemma startLoop_advance cfg loopId callbacks env w :
  match getLoop loopId w with
  | Some l =>
      advance (allowed callbacks (db.mode l))
        (1 + Z.to_nat (db.iteration_max l)) w
        (startLoop cfg loopId callbacks env w).2
  | None => (startLoop cfg loopId callbacks env w).2 = w
  end.
Proof.
  unfold startLoop. destruct (getLoop loopId w) as [l|]; [|done].
  destruct (config.getRepo cfg _ _) as [repoConfig|]; [|apply advance_refl].
  destruct (config.getFactoryKey cfg _) as [key|]; [|apply advance_refl].
  set (dir := join _ _).
  pose proof (ensureWorkspace_advance (allowed callbacks (db.mode l)) 0 w w dir
                (db.repo_owner l) (db.repo_name l) (config.default_branch repoConfig)
                (workspace env) (advance_refl _ _ _)) as He.
  destruct (ensureWorkspace _ _ _ _ _ w) as [[[]|reason|] w1]; cbn [snd] in He |- *;
    try (apply advance_le with 1%nat; [lia|exact He]).
  replace (1 + Z.to_nat (db.iteration_max l))%nat
    with (1 + length (seqZ 1 (db.iteration_max l)))%nat by (by rewrite length_seqZ).
  apply drive_advance. apply advance_call; [intros Hs; exact Hs|].
  apply advance_logLoop. by apply advance_updateLoop.
Qed.

(** ** The registry *)

Lemma activeProcesses_call supplied c w :
  activeProcesses (call supplied c w) = activeProcesses w.
Proof. by destruct supplied. Qed.

Section DriverRegistry.

Variable callbacks : LoopCallbacks.
Variable loopId : string.
Variable loop : db.Loop.
Variables workspaceDir factoryKey : string.
Variable repoConfig : config.Repo.

Lemma classify_activeProcesses i output x :
  activeProcesses (classify callbacks loopId loop i output x).2 = activeProcesses x.
Proof.
  unfold classify. destruct (completion_sentinel output).
  { cbn [snd]. rewrite activeProcesses_call.
    cbn [activeProcesses logLoop completeLoop with_store]. apply activeProcesses_call. }
  destruct (text.first_match text.pull_url_at output); [|apply activeProcesses_call].
  destruct (decide (db.mode loop = db.Approval)); cbn [snd];
    rewrite activeProcesses_call;
    cbn [activeProcesses logLoop updateLoop with_store]; apply activeProcesses_call.
Qed.

Lemma on_error_activeProcesses errorMsg x :
  activeProcesses (on_error callbacks loopId errorMsg x).2 = activeProcesses x.
Proof. unfold on_error. cbn [snd]. by rewrite activeProcesses_call. Qed.

Lemma after_loop_activeProcesses x :
  activeProcesses (after_loop callbacks loopId loop x).2 = activeProcesses x.
Proof.
  unfold after_loop. destruct (getLoop loopId x) as [l|]; [|done].
  destruct (decide (db.status l = db.Running)); [|done].
  cbn [snd]. by rewrite activeProcesses_call.
Qed.

Lemma iteration_unregistered i r x :
  activeProcesses x !! loopId = None ->
  let it := iteration callbacks loopId loop workspaceDir factoryKey repoConfig i r x in
  it.1 <> Suspend -> activeProcesses it.2 !! loopId = None.
Proof.
  intros Hx. unfold iteration.
  destruct (getLoop loopId x) as [l|]; [|done].
  destruct (decide (db.status l = db.Stopped)); [done|].
  destruct (decide (db.status l = db.Paused \/ db.status l = db.Waiting_approval));
    [done|].
  unfold runIteration. cbn [spawn]. destruct r as [r|]; [|done].
  destruct (ending r) as [code|message].
  - destruct (bool_decide (code = Some 0)
              || text.includes (text.join (chunks r)) "<done>"); intros _.
    + rewrite classify_activeProcesses. apply lookup_delete_eq.
    + rewrite on_error_activeProcesses. apply lookup_delete_eq.
  - intros _. rewrite on_error_activeProcesses. apply lookup_delete_eq.
Qed.

Lemma for_loop_unregistered js : forall rs x,
  activeProcesses x !! loopId = None ->
  let fl := for_loop callbacks loopId loop workspaceDir factoryKey repoConfig js rs x in
  fl.1 <> Suspend -> activeProcesses fl.2 !! loopId = None.
Proof.
  induction js as [|i js IH]; intros rs x Hx; [done|].
  cbn [for_loop].
  pose proof (iteration_unregistered i (head rs) x Hx) as Hi. cbv zeta in Hi.
  destruct (iteration _ _ _ _ _ _ i (head rs) x) as [[] x1]; cbn [fst snd] in Hi |- *;
    try (intros _; by apply Hi); [|done].
  apply IH. by apply Hi.
Qed.

(** A body that finds the loop running launches a process; when the run
    has ended the entry is gone, whatever was registered before. *)
Lemma iteration_run_unregistered i r x l :
  getLoop loopId x = Some l -> db.status l = db.Running ->
  let it := iteration callbacks loopId loop workspaceDir factoryKey repoConfig i r x in
  it.1 <> Suspend -> activeProcesses it.2 !! loopId = None.
Proof.
  intros Hl Hs. unfold iteration. rewrite Hl.
  destruct (decide (db.status l = db.Stopped)) as [E|_]; [by rewrite Hs in E|].
  destruct (decide (db.status l = db.Paused \/ db.status l = db.Waiting_approval))
    as [[E|E]|_]; [by rewrite Hs in E|by rewrite Hs in E|].
  unfold runIteration. cbn [spawn]. destruct r as [r|]; [|done].
  destruct (ending r) as [code|message].
  - destruct (bool_decide (code = Some 0)
              || text.includes (text.join (chunks r)) "<done>"); intros _.
    + rewrite classify_activeProcesses. apply lookup_delete_eq.
    + rewrite on_error_activeProcesses. apply lookup_delete_eq.
  - intros _. rewrite on_error_activeProcesses. apply lookup_delete_eq.
Qed.

Lemma drive_run_unregistered i js rs x l :
  getLoop loopId x = Some l -> db.status l = db.Running ->
  let dr := drive callbacks loopId loop workspaceDir factoryKey repoConfig
              (i :: js) rs x in
  dr.1 <> Unsettled -> activeProcesses dr.2 !! loopId = None.
Proof.
  intros Hl Hs. unfold drive. cbn [for_loop].
  pose proof (iteration_run_unregistered i (head rs) x l Hl Hs) as Hi. cbv zeta in Hi.
  destruct (iteration _ _ _ _ _ _ i (head rs) x) as [[] x1]; cbn [fst snd] in Hi |- *;
    try (intros _; rewrite ?after_loop_activeProcesses; by apply Hi); [|done].
  pose proof (for_loop_unregistered js (tail rs) x1 (Hi ltac:(done))) as Hf.
  cbv zeta in Hf.
  destruct (for_loop _ _ _ _ _ _ js (tail rs) x1) as [[] x2]; cbn [fst snd] in Hf |- *;
    try (intros _; rewrite ?after_loop_activeProcesses; by apply Hf); done.
Qed.

(** The driver never reads a row that is not there: control never leaves
    the loop by an exception, and the code after the loop finds the row. *)
Lemma drive_never_rejects js : forall rs x,
  is_Some (getLoop loopId x) ->
  forall reason,
    (drive callbacks loopId loop workspaceDir factoryKey repoConfig js rs x).1
    <> Rejected reason.
Proof.
  assert (Hafter : forall x, is_Some (getLoop loopId x) ->
            forall reason, (after_loop callbacks loopId loop x).1 <> Rejected reason).
  { intros x [l Hl] reason. unfold after_loop. rewrite Hl.
    by destruct (decide (db.status l = db.Running)). }
  assert (Hfor : forall js rs x, is_Some (getLoop loopId x) ->
            let fl := for_loop callbacks loopId loop workspaceDir factoryKey
                        repoConfig js rs x in
            (forall reason, fl.1 <> Throw reason) /\ is_Some (getLoop loopId fl.2)).
  { clear js. induction js as [|i js IH]; intros rs x Hx; [done|].
    cbn [for_loop].
    pose proof (iteration_advance callbacks loopId loop workspaceDir factoryKey
                  repoConfig 0 x x i (head rs) (advance_refl _ _ _)) as (_ & _ & _ & Hd).
    assert (Hthrow : forall reason,
              (iteration callbacks loopId loop workspaceDir factoryKey repoConfig
                 i (head rs) x).1 <> Throw reason).
    { intros reason. unfold iteration. destruct Hx as [l Hl]. rewrite Hl.
      destruct (decide (db.status l = db.Stopped)); [done|].
      destruct (decide (db.status l = db.Paused \/ db.status l = db.Waiting_approval));
        [done|].
      destruct (runIteration _ _ _ _ _ _) as [[output|errorMsg|] x1]; [|done|done].
      unfold classify. destruct (completion_sentinel output); [done|].
      destruct (text.first_match text.pull_url_at output); [|done].
      by destruct (decide (db.mode loop = db.Approval)). }
    assert (Hsome : is_Some (getLoop loopId
              (iteration callbacks loopId loop workspaceDir factoryKey repoConfig
                 i (head rs) x).2)).
    { apply elem_of_dom. rewrite Hd. by apply elem_of_dom. }
    destruct (iteration _ _ _ _ _ _ i (head rs) x) as [[] x1];
      cbn [fst snd] in Hthrow, Hsome |- *; try (split; [done|exact Hsome]).
    by apply IH. }
  intros rs x Hx reason. unfold drive.
  destruct (Hfor js rs x Hx) as [Hthrow Hsome].
  destruct (for_loop _ _ _ _ _ _ js rs x) as [[] x1]; cbn [fst snd] in *;
    try done; try by apply Hafter.
  intros [= ->]. by destruct (Hthrow reason).
Qed.

End DriverRegistry.

(** ** One invocation of the driver, seen from outside *)

(** X12.  One invocation of the driver launches at most one shell command
    and [iteration_max] agent processes, whatever the oracles answer. *)
Theorem driver_launch_budget cfg loopId callbacks env w l :
  getLoop loopId w = Some l ->
  (length (launches (startLoop cfg loopId callbacks env w).2)
   <= length (launches w) + 1 + Z.to_nat (db.iteration_max l))%nat.
Proof.
  intros Hl. pose proof (startLoop_advance cfg loopId callbacks env w) as H.
  rewrite Hl in H. destruct H as (L & _). lia.
Qed.

(** X14.  Every hook call of an invocation of the driver is a call of a
    hook that was supplied; onTaskComplete is only called for a loop in auto
    mode and onWaitingApproval only for a loop in approval mode. *)
Theorem hooks_called_as_supplied cfg loopId callbacks env w l :
  getLoop loopId w = Some l ->
  exists added,
    calls (startLoop cfg loopId callbacks env w).2 = (added ++ calls w)%list
    /\ Forall (fun c => allowed callbacks (db.mode l) c = true) added.
Proof.
  intros Hl. pose proof (startLoop_advance cfg loopId callbacks env w) as H.
  rewrite Hl in H. by destruct H as (_ & _ & C & _).
Qed.

(** X15.  The invocation approve and skip submit has no callbacks: it
    reports nothing, whatever happens to the loop. *)
Theorem resumed_driver_is_silent cfg d env w :
  calls (run_detached cfg d env w).2 = calls w.
Proof.
  destruct d as [loopId]. unfold run_detached.
  pose proof (startLoop_advance cfg loopId no_callbacks env w) as H.
  destruct (getLoop loopId w) as [l|]; [|by rewrite H].
  destruct H as (_ & _ & (added & -> & Hall) & _).
  destruct added as [|c added]; [done|].
  apply Forall_cons in Hall as [Hc _]. by destruct c.
Qed.

(** X16.  An invocation of the driver that got as far as its first agent
    process (the workspace command succeeded and [iteration_max] is at least
    1) and has settled leaves no process registered for its loop, whatever
    was registered when it began: a run that ends takes the entry away, and
    from there the driver goes on to the next launch or to its end without
    awaiting anything. *)
Theorem settled_driver_leaves_no_process cfg loopId callbacks env w l repoConfig key e :
  getLoop loopId w = Some l ->
  config.getRepo cfg (db.repo_owner l) (db.repo_name l) = Some repoConfig ->
  config.getFactoryKey cfg (db.started_by l) = Some key ->
  workspace env = Some e ->
  exec_code e = Some 0 ->
  1 <= db.iteration_max l ->
  (startLoop cfg loopId callbacks env w).1 <> Unsettled ->
  activeProcesses (startLoop cfg loopId callbacks env w).2 !! loopId = None.
Proof.
  intros Hl Hr Hk He Hcode Hmax. unfold startLoop. rewrite Hl, Hr, Hk, He.
  destruct (ensureWorkspace_some
              (join WORKSPACE_DIR (db.repo_owner l +:+ "-" +:+ db.repo_name l))
              (db.repo_owner l) (db.repo_name l) (config.default_branch repoConfig)
              e w) as (w1 & reason & -> & _ & Hg & _).
  destruct (decide (exec_code e = Some 0)); [|done].
  destruct (proj2 (Hg loopId) (mk_is_Some _ _ Hl)) as [l1 Hl1].
  rewrite seqZ_cons by lia.
  apply drive_run_unregistered
    with (db.set_fields [db.status_ db.Running; db.started_at_ (Some (clock w1))] l1).
  - by rewrite getLoop_call, getLoop_logLoop, getLoop_updateLoop, Hl1.
  - reflexivity.
Qed.

Lemma ensureWorkspace_never o dir owner repo branch w :
  o = None -> (ensureWorkspace dir owner repo branch o w).1 = Unsettled.
Proof.
  intros ->. unfold ensureWorkspace, execCommand. cbn [spawn].
  by destruct (decide (dir ∈ dirs _)).
Qed.

(** X17.  An invocation of the driver that rejects has invoked no hook and
    (nothing else happening during the workspace command) has written
    nothing to the store.  A rejection comes from the configuration or the
    workspace only: a row once read is never missing later. *)
Theorem rejected_driver_wrote_nothing cfg loopId callbacks env w reason :
  (startLoop cfg loopId callbacks env w).1 = Rejected reason ->
  calls (startLoop cfg loopId callbacks env w).2 = calls w
  /\ ((forall e, workspace env = Some e -> exec_during e = []) ->
      store (startLoop cfg loopId callbacks env w).2 = store w).
Proof.
  unfold startLoop.
  destruct (getLoop loopId w) as [l|] eqn:Hl; [|done].
  destruct (config.getRepo cfg _ _) as [repoConfig|]; [|done].
  destruct (config.getFactoryKey cfg _) as [key|]; [|done].
  destruct (workspace env) as [e|] eqn:He.
  - destruct (ensureWorkspace_some
                (join WORKSPACE_DIR (db.repo_owner l +:+ "-" +:+ db.repo_name l))
                (db.repo_owner l) (db.repo_name l) (config.default_branch repoConfig)
                e w) as (w1 & why & -> & Hc & Hg & Hs).
    destruct (decide (exec_code e = Some 0)).
    + intros Hrej. exfalso. revert Hrej. apply drive_never_rejects.
      rewrite getLoop_call, getLoop_logLoop. apply updateLoop_is_Some, Hg. by eexists.
    + intros _. cbn [snd]. split; [exact Hc|]. intros Hquiet. apply Hs. by apply Hquiet.
  - pose proof (ensureWorkspace_never None
                  (join WORKSPACE_DIR (db.repo_owner l +:+ "-" +:+ db.repo_name l))
                  (db.repo_owner l) (db.repo_name l) (config.default_branch repoConfig)
                  w eq_refl) as Hn.
    destruct (ensureWorkspace _ _ _ _ None w) as [[[]|why|] w1]; cbn [fst] in Hn;
      done.
Qed.

(** ** Running out of iterations *)

Lemma ensureWorkspace_launches dir owner repo branch e w :
  length (launches (ensureWorkspace dir owner repo branch (Some e) w).2)
  = S (length (launches w)).
Proof.
  unfold ensureWorkspace, execCommand. cbn [spawn].
  set (w0 := if decide (WORKSPACE_DIR ∈ dirs w) then w else _).
  assert (H0 : launches w0 = launches w).
  { unfold w0. by destruct (decide (WORKSPACE_DIR ∈ dirs w)). }
  destruct (decide (dir ∈ dirs w0)); destruct (decide (exec_code e = Some 0));
    cbn [snd launches with_dirs]; rewrite ext_events_launches; cbn [launches length];
    by rewrite H0.
Qed.

Section Exhaustion.

Variable callbacks : LoopCallbacks.
Variable loopId : string.
Variable loop : db.Loop.
Variables workspaceDir factoryKey : string.
Variable repoConfig : config.Repo.

Lemma iteration_uneventful i r x l :
  getLoop loopId x = Some l ->
  db.status l = db.Running ->
  uneventful r ->
  exists x',
    iteration callbacks loopId loop workspaceDir factoryKey repoConfig i (Some r) x
    = (Continue, x')
    /\ getLoop loopId x' = Some (db.set_fields [db.iteration_current_ i] l)
    /\ length (launches x') = S (length (launches x)).
Proof.
  intros Hl Hs (Hd & He & Hp).
  rewrite (iteration_runs callbacks loopId loop workspaceDir factoryKey repoConfig
             i r x l Hl) by (by rewrite Hs).
  rewrite He. cbn [bool_decide decide_rel orb].
  rewrite bool_decide_eq_true_2 by done. cbn [orb].
  unfold plain in Hp. apply andb_true_iff in Hp as [Hsent Hpr].
  apply negb_true_iff in Hsent. apply bool_decide_eq_true in Hpr.
  unfold classify. rewrite Hsent, Hpr. eexists. split; [reflexivity|].
  rewrite getLoop_call, launches_call, at_close_launches. split; [|done].
  unfold observe.at_close. rewrite Hd. cbn [spawn ext_events foldl].
  rewrite !getLoop_with_activeProcesses.
  change (getLoop loopId (updateLoop loopId [db.iteration_current_ i] x)
          = Some (db.set_fields [db.iteration_current_ i] l)).
  by rewrite getLoop_updateLoop, Hl.
Qed.

Lemma for_loop_uneventful js : forall rs x l,
  getLoop loopId x = Some l ->
  db.status l = db.Running ->
  Forall uneventful rs ->
  (length js <= length rs)%nat ->
  exists x' l',
    for_loop callbacks loopId loop workspaceDir factoryKey repoConfig js rs x
    = (Break, x')
    /\ getLoop loopId x' = Some l'
    /\ db.status l' = db.Running
    /\ db.iteration_current l' = default (db.iteration_current l) (last js)
    /\ length (launches x') = (length (launches x) + length js)%nat.
Proof.
  induction js as [|i js IH]; intros rs x l Hl Hs Hrs Hlen.
  - exists x, l. cbn. repeat split; try done; lia.
  - destruct rs as [|r rs]; [cbn in Hlen; lia|].
    apply Forall_cons in Hrs as [Hr Hrs].
    destruct (iteration_uneventful i r x l Hl Hs Hr) as (x1 & Hit & Hl1 & Hla1).
    destruct (IH rs x1 _ Hl1 Hs Hrs ltac:(cbn in Hlen; lia))
      as (x' & l' & Hfl & Hl' & Hs' & Hic & Hla).
    exists x', l'. cbn [for_loop head tail]. rewrite Hit.
    split; [exact Hfl|]. split; [exact Hl'|]. split; [exact Hs'|]. split.
    + rewrite Hic, last_cons. by destruct (last js).
    + rewrite Hla, Hla1. cbn [length]. lia.
Qed.

End Exhaustion.

(** X18.  When every run closes with code 0 and a plain output and nothing
    else happens, the driver runs [iteration_max] iterations and completes
    the loop, [iteration_current] standing at [iteration_max]; a loop whose
    [iteration_max] is below 1 is completed without an iteration. *)
Theorem exhausted_budget_completes cfg loopId callbacks env w l repoConfig key e :
  getLoop loopId w = Some l ->
  config.getRepo cfg (db.repo_owner l) (db.repo_name l) = Some repoConfig ->
  config.getFactoryKey cfg (db.started_by l) = Some key ->
  workspace env = Some e ->
  exec_code e = Some 0 ->
  exec_during e = [] ->
  Forall uneventful (runs env) ->
  (Z.to_nat (db.iteration_max l) <= length (runs env))%nat ->
  exists w' l',
    startLoop cfg loopId callbacks env w = (Resolved (), w')
    /\ getLoop loopId w' = Some l'
    /\ db.status l' = db.Complete
    /\ db.iteration_current l'
       = (if decide (1 <= db.iteration_max l) then db.iteration_max l
          else db.iteration_current l)
    /\ length (launches w')
       = (length (launches w) + 1 + Z.to_nat (db.iteration_max l))%nat
    /\ (onComplete callbacks = true -> head (calls w') = Some (OnComplete (Some l'))).
Proof.
  intros Hl Hr Hk He Hcode Hquiet Hruns Hlen. unfold startLoop.
  rewrite Hl, Hr, Hk, He.
  pose proof (ensureWorkspace_launches
                (join WORKSPACE_DIR (db.repo_owner l +:+ "-" +:+ db.repo_name l))
                (db.repo_owner l) (db.repo_name l) (config.default_branch repoConfig)
                e w) as Hla1.
  destruct (ensureWorkspace_some
              (join WORKSPACE_DIR (db.repo_owner l +:+ "-" +:+ db.repo_name l))
              (db.repo_owner l) (db.repo_name l) (config.default_branch repoConfig)
              e w) as (w1 & why & Hens & _ & _ & Hs).
  rewrite Hens in Hla1 |- *. cbn [snd] in Hla1.
  destruct (decide (exec_code e = Some 0)); [|done].
  specialize (Hs Hquiet).
  assert (Hl1 : getLoop loopId w1 = Some l) by (unfold getLoop; by rewrite Hs).
  set (w4 := call _ _ _).
  assert (H4 : getLoop loopId w4
               = Some (db.set_fields
                         [db.status_ db.Running; db.started_at_ (Some (clock w1))] l)).
  { unfold w4. by rewrite getLoop_call, getLoop_logLoop, getLoop_updateLoop, Hl1. }
  destruct (for_loop_uneventful callbacks loopId l
              (join WORKSPACE_DIR (db.repo_owner l +:+ "-" +:+ db.repo_name l))
              key repoConfig (seqZ 1 (db.iteration_max l)) (runs env) w4 _ H4
              eq_refl Hruns ltac:(by rewrite length_seqZ))
    as (x' & l' & Hfl & Hl' & Hs' & Hic & Hla).
  unfold drive. rewrite Hfl. unfold after_loop. rewrite Hl'.
  destruct (decide (db.status l' = db.Running)); [|done].
  eexists _, _. split; [reflexivity|].
  assert (Hdone : getLoop loopId
            (logLoop loopId
               ("Reached iteration limit (" +:+ pretty (db.iteration_max l) +:+ ")")
               db.info (completeLoop loopId x'))
          = Some (db.set_fields
                    [db.status_ db.Complete; db.completed_at_ (Some (clock x'))] l')).
  { by rewrite getLoop_logLoop, getLoop_completeLoop, Hl'. }
  split; [by rewrite getLoop_call|]. split; [reflexivity|]. split.
  { change (db.iteration_current l'
            = if decide (1 <= db.iteration_max l) then db.iteration_max l
              else db.iteration_current l).
    rewrite Hic. cbn [db.iteration_current db.set_fields].
    destruct (decide (1 <= db.iteration_max l)) as [Hn|Hn].
    - rewrite last_lookup, length_seqZ, lookup_seqZ_lt by lia. simpl. lia.
    - by rewrite seqZ_nil by lia. }
  split.
  - rewrite launches_call. cbn [launches logLoop completeLoop with_store].
    rewrite Hla, length_seqZ. unfold w4. rewrite launches_call.
    cbn [launches logLoop updateLoop with_store]. lia.
  - intros ->. cbn [call calls head]. by rewrite Hdone.
Qed.

(** ** The store under all operations of the engine *)

Lemma advance_request_merge okc k w x owner repo pr :
  advance okc k w x -> advance okc k w (request_merge owner repo pr x).
Proof. intros H. exact H. Qed.

Lemma approveAndContinue_advance loopId m w :
  advance (fun _ => true) 0 w (approveAndContinue loopId m w).2.
Proof.
  unfold approveAndContinue.
  destruct (getLoop loopId w) as [l|]; [|apply advance_refl].
  destruct (decide (db.status l ≠ db.Waiting_approval)); [apply advance_refl|].
  destruct (pr_on_record l) as [pr|].
  - assert (H1 : advance (fun _ => true) 0 w
                   (ext_events (merge_during m)
                      (request_merge (db.repo_owner l) (db.repo_name l) pr w))).
    { apply advance_ext_events, advance_request_merge, advance_refl. }
    destruct (merged m); cbn [snd]; [|exact H1].
    unfold continue_loop. by apply advance_updateLoop, advance_logLoop.
  - cbn [snd]. unfold continue_loop. apply advance_updateLoop, advance_refl.
Qed.

Lemma skipAndContinue_advance loopId w :
  advance (fun _ => true) 0 w (skipAndContinue loopId w).2.
Proof.
  unfold skipAndContinue.
  destruct (getLoop loopId w) as [l|]; [|apply advance_refl].
  destruct (decide (db.status l ≠ db.Waiting_approval)); [apply advance_refl|].
  cbn [snd]. unfold continue_loop. apply advance_logLoop, advance_updateLoop, advance_refl.
Qed.

(** X13.  The four operations of the engine only ever add to the log, and
    add and remove no row of the store. *)
Theorem store_only_grows cfg loopId callbacks env m w :
  let grown w' :=
    extends (db.loop_logs (store w')) (db.loop_logs (store w))
    /\ dom (db.loops (store w')) = dom (db.loops (store w)) in
  grown (startLoop cfg loopId callbacks env w).2
  /\ grown (stopLoopProcess loopId w).2
  /\ grown (approveAndContinue loopId m w).2
  /\ grown (skipAndContinue loopId w).2.
Proof.
  cbv zeta. split; [|split; [|split]].
  - pose proof (startLoop_advance cfg loopId callbacks env w) as H.
    destruct (getLoop loopId w) as [l|].
    + destruct H as (_ & G & _ & D). by split.
    + rewrite H. split; [apply extends_refl|done].
  - rewrite stopLoopProcess_logs, stopLoopProcess_dom. split; [apply extends_refl|done].
  - destruct (approveAndContinue_advance loopId m w) as (_ & G & _ & D). by split.
  - destruct (skipAndContinue_advance loopId w) as (_ & G & _ & D). by split.
Qed.

(** ** One loop at a time *)

Section Apart.

Variable callbacks : LoopCallbacks.
Variable loopId other : string.
Variable loop : db.Loop.
Variables workspaceDir factoryKey : string.
Variable repoConfig : config.Repo.
Hypothesis Hother : other <> loopId.

Lemma getLoop_other_updateLoop updates x :
  getLoop other (updateLoop loopId updates x) = getLoop other x.
Proof. by apply getLoop_updateLoop_ne. Qed.

Lemma classify_apart i output x :
  getLoop other (classify callbacks loopId loop i output x).2 = getLoop other x.
Proof.
  unfold classify. destruct (completion_sentinel output).
  { cbn [snd]. rewrite getLoop_call, getLoop_logLoop.
    unfold completeLoop, db.completeLoop.
    change (with_store (db.updateLoop loopId ?u) ?y) with (updateLoop loopId u y).
    by rewrite getLoop_other_updateLoop, getLoop_call. }
  destruct (text.first_match text.pull_url_at output); [|apply getLoop_call].
  destruct (decide (db.mode loop = db.Approval)); cbn [snd].
  - by rewrite getLoop_call, getLoop_logLoop, !getLoop_other_updateLoop, getLoop_call.
  - by rewrite getLoop_call, getLoop_other_updateLoop, getLoop_call.
Qed.

Lemma on_error_apart errorMsg x :
  getLoop other (on_error callbacks loopId errorMsg x).2 = getLoop other x.
Proof.
  unfold on_error. cbn [snd]. rewrite getLoop_call, getLoop_logLoop.
  unfold failLoop, db.failLoop.
  change (with_store (db.updateLoop loopId ?u) ?y) with (updateLoop loopId u y).
  apply getLoop_other_updateLoop.
Qed.

Lemma after_loop_apart x :
  getLoop other (after_loop callbacks loopId loop x).2 = getLoop other x.
Proof.
  unfold after_loop. destruct (getLoop loopId x) as [l|]; [|done].
  destruct (decide (db.status l = db.Running)); [|done].
  cbn [snd]. rewrite getLoop_call, getLoop_logLoop.
  unfold completeLoop, db.completeLoop.
  change (with_store (db.updateLoop loopId ?u) ?y) with (updateLoop loopId u y).
  apply getLoop_other_updateLoop.
Qed.

Lemma iteration_apart i r x :
  from_option undisturbed True r ->
  getLoop other
    (iteration callbacks loopId loop workspaceDir factoryKey repoConfig i r x).2
  = getLoop other x.
Proof.
  intros Hr. unfold iteration.
  destruct (getLoop loopId x) as [l|]; [|done].
  destruct (decide (db.status l = db.Stopped)); [done|].
  destruct (decide (db.status l = db.Paused \/ db.status l = db.Waiting_approval));
    [done|].
  set (x2 := logLoop loopId _ db.info (updateLoop loopId _ x)).
  assert (H2 : getLoop other x2 = getLoop other x).
  { unfold x2. by rewrite getLoop_logLoop, getLoop_other_updateLoop. }
  unfold runIteration. cbn [spawn]. destruct r as [r|]; [|exact H2].
  simpl in Hr. unfold undisturbed in Hr. rewrite Hr. cbn [ext_events foldl].
  destruct (ending r) as [code|message].
  - destruct (bool_decide (code = Some 0)
              || text.includes (text.join (chunks r)) "<done>").
    + rewrite classify_apart. exact H2.
    + rewrite on_error_apart. exact H2.
  - rewrite on_error_apart. exact H2.
Qed.

Lemma for_loop_apart js : forall rs x,
  Forall undisturbed rs ->
  getLoop other
    (for_loop callbacks loopId loop workspaceDir factoryKey repoConfig js rs x).2
  = getLoop other x.
Proof.
  induction js as [|i js IH]; intros rs x Hrs; [done|].
  cbn [for_loop].
  assert (Hhead : from_option undisturbed True (head rs)).
  { destruct Hrs; [done|]. done. }
  pose proof (iteration_apart i (head rs) x Hhead) as Hi.
  destruct (iteration _ _ _ _ _ _ i (head rs) x) as [[] x1]; cbn [snd] in Hi |- *;
    try exact Hi.
  rewrite IH; [exact Hi|]. destruct Hrs; [constructor|done].
Qed.

Lemma drive_apart js rs x :
  Forall undisturbed rs ->
  getLoop other
    (drive callbacks loopId loop workspaceDir factoryKey repoConfig js rs x).2
  = getLoop other x.
Proof.
  intros Hrs. unfold drive. pose proof (for_loop_apart js rs x Hrs) as Hf.
  destruct (for_loop _ _ _ _ _ _ js rs x) as [[] x1]; cbn [snd] in Hf |- *;
    rewrite ?after_loop_apart; exact Hf.
Qed.

End Apart.

Lemma ensureWorkspace_store dir owner repo branch o w :
  (forall e, o = Some e -> exec_during e = []) ->
  store (ensureWorkspace dir owner repo branch o w).2 = store w.
Proof.
  intros Hq. unfold ensureWorkspace, execCommand. cbn [spawn].
  set (w0 := if decide (WORKSPACE_DIR ∈ dirs w) then w else _).
  assert (H0 : store w0 = store w).
  { unfold w0. by destruct (decide (WORKSPACE_DIR ∈ dirs w)). }
  destruct o as [e|].
  - rewrite (Hq e eq_refl). cbn [ext_events foldl].
    destruct (decide (dir ∈ dirs w0)); destruct (decide (exec_code e = Some 0));
      exact H0.
  - by destruct (decide (dir ∈ dirs w0)).
Qed.

(** X19.  The operations on one loop leave the rows of all other loops as
    they are (nothing else happening meanwhile). *)
Theorem other_loops_left_alone cfg loopId other callbacks env m w :
  other <> loopId ->
  (calm env -> getLoop other (startLoop cfg loopId callbacks env w).2 = getLoop other w)
  /\ getLoop other (stopLoopProcess loopId w).2 = getLoop other w
  /\ (merge_during m = [] ->
      getLoop other (approveAndContinue loopId m w).2 = getLoop other w)
  /\ getLoop other (skipAndContinue loopId w).2 = getLoop other w.
Proof.
  intros Hne. split; [|split; [|split]].
  - intros [Hws Hruns]. unfold startLoop.
    assert (Hquiet : forall e, workspace env = Some e -> exec_during e = []).
    { intros e He. by rewrite He in Hws. }
    destruct (getLoop loopId w) as [l|]; [|done].
    destruct (config.getRepo cfg _ _) as [repoConfig|]; [|done].
    destruct (config.getFactoryKey cfg _) as [key|]; [|done].
    pose proof (ensureWorkspace_store
                  (join WORKSPACE_DIR (db.repo_owner l +:+ "-" +:+ db.repo_name l))
                  (db.repo_owner l) (db.repo_name l) (config.default_branch repoConfig)
                  (workspace env) w Hquiet) as Hs.
    destruct (ensureWorkspace _ _ _ _ _ w) as [[[]|reason|] w1]; cbn [snd] in Hs |- *;
      try (unfold getLoop; by rewrite Hs).
    rewrite (drive_apart callbacks loopId other l _ _ repoConfig Hne) by done.
    rewrite getLoop_call, getLoop_logLoop, getLoop_updateLoop_ne by done.
    unfold getLoop. by rewrite Hs.
  - unfold stopLoopProcess.
    destruct (activeProcesses w !! loopId).
    + cbn [snd]. unfold stopLoop, db.stopLoop.
      change (with_store (db.updateLoop loopId ?u) ?y) with (updateLoop loopId u y).
      by rewrite getLoop_updateLoop_ne.
    + destruct (getLoop loopId w) as [l|]; [|done].
      destruct (active (db.status l)); [|done]. cbn [snd]. unfold stopLoop, db.stopLoop.
      change (with_store (db.updateLoop loopId ?u) ?y) with (updateLoop loopId u y).
      by rewrite getLoop_updateLoop_ne.
  - intros Hm. unfold approveAndContinue. rewrite Hm. cbn [ext_events foldl].
    destruct (getLoop loopId w) as [l|]; [|done].
    destruct (decide (db.status l ≠ db.Waiting_approval)); [done|].
    destruct (pr_on_record l) as [pr|].
    + destruct (merged m); [|done]. cbn [snd]. unfold continue_loop.
      by rewrite getLoop_updateLoop_ne.
    + cbn [snd]. unfold continue_loop. by rewrite getLoop_updateLoop_ne.
  - unfold skipAndContinue.
    destruct (getLoop loopId w) as [l|]; [|done].
    destruct (decide (db.status l ≠ db.Waiting_approval)); [done|].
    cbn [snd]. unfold continue_loop. by rewrite getLoop_logLoop, getLoop_updateLoop_ne.
Qed.

(** ** Decisions are taken once *)

Lemma status_after_stop loopId w :
  db.status <$> getLoop loopId (stopLoopProcess loopId w).2
  <> Some db.Waiting_approval.
Proof.
  unfold stopLoopProcess.
  destruct (activeProcesses w !! loopId) as [proc|].
  - cbn [snd].
    rewrite (getLoop_stopLoop loopId
               (with_activeProcesses (delete loopId) (kill proc SIGTERM w))).
    by destruct (getLoop loopId _).
  - destruct (getLoop loopId w) as [l|] eqn:Hl; cbn [snd]; [|by rewrite Hl].
    destruct (active (db.status l)) eqn:Ha; cbn [snd].
    + rewrite getLoop_stopLoop, Hl. done.
    + rewrite Hl. simpl. intros [= Hw]. by rewrite Hw in Ha.
Qed.

(** X20.  After a stop, approve and skip reject and change nothing: a
    stopped loop cannot be resumed. *)
Theorem stop_wins_over_approval loopId m w :
  let w' := (stopLoopProcess loopId w).2 in
  approveAndContinue loopId m w' = (Rejected not_waiting, w')
  /\ skipAndContinue loopId w' = (Rejected not_waiting, w').
Proof. apply not_waiting_rejects, status_after_stop. Qed.

(** X21.  An approve or a skip that went through cannot be repeated: the
    next approve or skip rejects and changes nothing. *)
Theorem decision_is_taken_once loopId m m' w d w' :
  approveAndContinue loopId m w = (Resolved d, w')
  \/ skipAndContinue loopId w = (Resolved d, w') ->
  d = Restart loopId
  /\ approveAndContinue loopId m' w' = (Rejected not_waiting, w')
  /\ skipAndContinue loopId w' = (Rejected not_waiting, w').
Proof.
  assert (Hrun : forall x,
            db.status <$> getLoop loopId (continue_loop loopId x)
            <> Some db.Waiting_approval).
  { intros x. rewrite getLoop_continue_loop. by destruct (getLoop loopId x). }
  intros [H|H].
  - unfold approveAndContinue in H.
    destruct (getLoop loopId w) as [l|]; [|done].
    destruct (decide (db.status l ≠ db.Waiting_approval)); [done|].
    destruct (pr_on_record l) as [pr|].
    + destruct (merged m); [|done]. injection H as <- <-.
      split; [done|]. apply not_waiting_rejects, Hrun.
    + injection H as <- <-. split; [done|]. apply not_waiting_rejects, Hrun.
  - unfold skipAndContinue in H.
    destruct (getLoop loopId w) as [l|]; [|done].
    destruct (decide (db.status l ≠ db.Waiting_approval)); [done|].
    injection H as <- <-. split; [done|]. apply not_waiting_rejects.
    rewrite getLoop_logLoop. apply Hrun.
Qed.

(** X22.  A stop takes one process off the count of live processes when it
    finds one registered for the loop and leaves the count alone otherwise;
    the entries of other loops stay. *)
Theorem stop_counts_down loopId w :
  getActiveProcessCount (stopLoopProcess loopId w).2
  = match activeProcesses w !! loopId with
    | Some _ => pred (getActiveProcessCount w)
    | None => getActiveProcessCount w
    end
  /\ forall other, other <> loopId ->
       activeProcesses (stopLoopProcess loopId w).2 !! other
       = activeProcesses w !! other.
Proof.
  unfold getActiveProcessCount, stopLoopProcess.
  destruct (activeProcesses w !! loopId) as [proc|] eqn:Hreg.
  - cbn [snd activeProcesses stopLoop with_store with_activeProcesses kill]. split.
    + rewrite map_size_delete, Hreg. done.
    + intros other Hne. by apply lookup_delete_ne.
  - destruct (getLoop loopId w) as [l|]; [|done].
    by destruct (active (db.status l)).
Qed.

(** X23.  On a loop whose status is complete, error or stopped, approve and
    skip reject and leave the world as it was, and so does a stop when no
    process is registered for the loop: it answers [false]. *)
Theorem terminal_loop_left_alone loopId m w l :
  getLoop loopId w = Some l ->
  terminal (db.status l) = true ->
  approveAndContinue loopId m w = (Rejected not_waiting, w)
  /\ skipAndContinue loopId w = (Rejected not_waiting, w)
  /\ (activeProcesses w !! loopId = None -> stopLoopProcess loopId w = (false, w)).
Proof.
  intros Hl Ht.
  assert (Hnw : db.status <$> getLoop loopId w <> Some db.Waiting_approval).
  { rewrite Hl. simpl. intros [= Hw]. by rewrite Hw in Ht. }
  destruct (not_waiting_rejects loopId m w Hnw) as [Ha Hs].
  split; [exact Ha|]. split; [exact Hs|].
  intros Hreg. rewrite (stopLoopProcess_unregistered _ _ Hreg), Hl.
  by destruct (db.status l).
Qed.

(** ** The further properties at work *)

Import examples.

Lemma rows_stay_under_their_id_witness :
  let s := store two_loops in
  keyed_by_id s
  /\ keyed_by_id (db.updateLoop "L1" [db.id_ "L2"; db.status_ db.Paused] s)
  /\ db.id <$> db.getLoop "L1" (db.updateLoop "L1" [db.id_ "L2"; db.status_ db.Paused] s)
     = Some "L1".
Proof.
  cbv zeta.
  assert (Hk : keyed_by_id (store two_loops)).
  { unfold keyed_by_id, two_loops. cbn [store db.loops].
    apply map_Forall_insert_2; [reflexivity|].
    apply map_Forall_singleton. reflexivity. }
  split; [exact Hk|]. split.
  - exact (proj1 (rows_stay_under_their_id (store two_loops) Hk) "L1"
             [db.id_ "L2"; db.status_ db.Paused]).
  - vm_compute. reflexivity.
Defined.

Lemma parseInt_reads_back_witness :
  safe_integer 1024 /\ text.parseInt (pretty 1024) = 1024.
Proof.
  assert (H : safe_integer 1024) by (unfold safe_integer, MAX_SAFE_INTEGER; lia).
  split; [exact H|]. exact (parseInt_reads_back 1024 H).
Defined.

Lemma pull_url_round_trip_witness :
  let url := pull_url "acme" "app" 42 in
  url = "https://github.com/acme/app/pull/42"
  /\ text.first_match text.pull_url_at (url +:+ " (closes #7)") = Some (pretty 42)
  /\ text.parseInt <$> text.first_match text.pull_url_at (url +:+ " (closes #7)")
     = Some 42
  /\ is_Some (text.first_match text.pull_url_at ("Opened " +:+ url +:+ " (closes #7)")).
Proof.
  cbv zeta. split; [vm_compute; reflexivity|].
  destruct (pull_url_round_trip "acme" "app" 42 "Opened " " (closes #7)")
    as (Hd & Hn & Hs); try first [discriminate | reflexivity | lia].
  split; [exact Hd|]. split; [|exact Hs].
  apply Hn. unfold MAX_SAFE_INTEGER. lia.
Defined.

Lemma captured_numbers_are_decimal_witness :
  text.first_match text.pull_url_at pr_output = Some "42"
  /\ all_digits "42" = true /\ 0 <= text.parseInt "42".
Proof.
  split; [reflexivity|].
  destruct (captured_numbers_are_decimal pr_output "42" (or_introl eq_refl))
    as (_ & Hd & Hn).
  split; [exact Hd|exact Hn].
Defined.

Lemma driver_launch_budget_witness :
  let w := world (row db.Pending db.Auto 0 3) in
  getLoop "L1" w = Some (row db.Pending db.Auto 0 3)
  /\ (length (launches (startLoop cfg "L1" observer three_plain_runs w).2) <= 0 + 1 + 3)%nat.
Proof.
  cbv zeta. split; [reflexivity|].
  exact (driver_launch_budget cfg "L1" observer three_plain_runs
           (world (row db.Pending db.Auto 0 3)) (row db.Pending db.Auto 0 3) eq_refl).
Defined.

Lemma hooks_called_as_supplied_witness :
  let w := world (row db.Pending db.Auto 0 3) in
  let env := mkEnv (Some ok) [prints pr_output (Some 0)] in
  getLoop "L1" w = Some (row db.Pending db.Auto 0 3)
  /\ exists added,
       calls (startLoop cfg "L1" observer env w).2 = (added ++ calls w)%list
       /\ Forall (fun c => is_waiting_call c = false) added.
Proof.
  cbv zeta. split; [reflexivity|].
  destruct (hooks_called_as_supplied cfg "L1" observer
              (mkEnv (Some ok) [prints pr_output (Some 0)])
              (world (row db.Pending db.Auto 0 3)) (row db.Pending db.Auto 0 3) eq_refl)
    as (added & Hc & Hall).
  exists added. split; [exact Hc|].
  eapply Forall_impl; [exact Hall|]. intros c Hok. by destruct c.
Defined.

Lemma settled_driver_leaves_no_process_witness :
  let w := world (row db.Pending db.Auto 0 3) in
  (startLoop cfg "L1" observer three_plain_runs w).1 <> Unsettled
  /\ activeProcesses (startLoop cfg "L1" observer three_plain_runs w).2 !! "L1" = None.
Proof.
  cbv zeta.
  assert (Hs : (startLoop cfg "L1" observer three_plain_runs
                  (world (row db.Pending db.Auto 0 3))).1 <> Unsettled).
  { vm_compute. discriminate. }
  split; [exact Hs|].
  apply (settled_driver_leaves_no_process cfg "L1" observer three_plain_runs
           (world (row db.Pending db.Auto 0 3)) (row db.Pending db.Auto 0 3)
           (config.mkRepo "acme" "app" "main" "prompt.md") "fac_1" ok);
    first [exact Hs | reflexivity | (vm_compute; discriminate) | (simpl; lia)].
Defined.

Lemma rejected_driver_wrote_nothing_witness :
  let w := world (row db.Pending db.Auto 0 3) in
  let started := startLoop cfg "L1" observer (mkEnv (Some clone_fails) []) w in
  exists reason,
    started.1 = Rejected reason
    /\ calls started.2 = calls w
    /\ store started.2 = store w.
Proof.
  cbv zeta. eexists. split; [vm_compute; reflexivity|].
  destruct (rejected_driver_wrote_nothing cfg "L1" observer
              (mkEnv (Some clone_fails) []) (world (row db.Pending db.Auto 0 3)) _
              ltac:(vm_compute; reflexivity)) as [Hc Hs].
  split; [exact Hc|]. apply Hs. intros e [= <-]. reflexivity.
Defined.

Lemma exhausted_budget_completes_witness :
  let l := row db.Pending db.Auto 0 3 in
  getLoop "L1" (world l) = Some l
  /\ Forall uneventful (runs three_plain_runs)
  /\ exists w' l',
       startLoop cfg "L1" observer three_plain_runs (world l) = (Resolved (), w')
       /\ getLoop "L1" w' = Some l'
       /\ db.status l' = db.Complete
       /\ db.iteration_current l' = 3
       /\ length (launches w') = 4%nat.
Proof.
  cbv zeta.
  assert (Hruns : Forall uneventful (runs three_plain_runs)).
  { repeat constructor. }
  split; [reflexivity|]. split; [exact Hruns|].
  destruct (exhausted_budget_completes cfg "L1" observer three_plain_runs
              (world (row db.Pending db.Auto 0 3)) (row db.Pending db.Auto 0 3)
              (config.mkRepo "acme" "app" "main" "prompt.md") "fac_1" ok
              eq_refl eq_refl eq_refl eq_refl eq_refl eq_refl Hruns
              ltac:(vm_compute; lia))
    as (w' & l' & Hs & Hg & Hst & Hic & Hla & _).
  exists w', l'. split; [exact Hs|]. split; [exact Hg|]. split; [exact Hst|].
  split; [exact Hic|exact Hla].
Defined.

Lemma other_loops_left_alone_witness :
  "L2" <> "L1"
  /\ calm three_plain_runs
  /\ is_Some (getLoop "L2" two_loops)
  /\ getLoop "L2" (startLoop cfg "L1" observer three_plain_runs two_loops).2
     = getLoop "L2" two_loops
  /\ getLoop "L2" (stopLoopProcess "L1" two_loops).2 = getLoop "L2" two_loops.
Proof.
  assert (Hne : "L2" <> "L1") by discriminate.
  assert (Hcalm : calm three_plain_runs).
  { split; [reflexivity|repeat constructor]. }
  split; [exact Hne|]. split; [exact Hcalm|].
  split; [vm_compute; by eexists|].
  destruct (other_loops_left_alone cfg "L1" "L2" observer three_plain_runs
              (mkMerge [] true) two_loops Hne) as (Hd & Hs & _).
  split; [exact (Hd Hcalm)|exact Hs].
Defined.

Lemma decision_is_taken_once_witness :
  let approved := approveAndContinue "L1" (mkMerge [] true) waiting_at_2 in
  approved = (Resolved (Restart "L1"), approved.2)
  /\ approveAndContinue "L1" (mkMerge [] true) approved.2
     = (Rejected not_waiting, approved.2)
  /\ skipAndContinue "L1" approved.2 = (Rejected not_waiting, approved.2).
Proof.
  cbv zeta.
  assert (H : approveAndContinue "L1" (mkMerge [] true) waiting_at_2
              = (Resolved (Restart "L1"),
                 (approveAndContinue "L1" (mkMerge [] true) waiting_at_2).2)).
  { vm_compute. reflexivity. }
  split; [exact H|].
  destruct (decision_is_taken_once "L1" (mkMerge [] true) (mkMerge [] true)
              waiting_at_2 (Restart "L1")
              (approveAndContinue "L1" (mkMerge [] true) waiting_at_2).2
              (or_introl H)) as (_ & Ha & Hs).
  split; [exact Ha|exact Hs].
Defined.

(** A complete loop: approve, skip and stop all leave it alone. *)
Lemma terminal_loop_left_alone_witness :
  let l := row db.Complete db.Approval 3 3 in
  let w := world l in
  getLoop "L1" w = Some l
  /\ terminal (db.status l) = true
  /\ activeProcesses w !! "L1" = None
  /\ approveAndContinue "L1" (mkMerge [] true) w = (Rejected not_waiting, w)
  /\ skipAndContinue "L1" w = (Rejected not_waiting, w)
  /\ stopLoopProcess "L1" w = (false, w).
Proof.
  cbv zeta. do 3 (split; [reflexivity|]).
  destruct (terminal_loop_left_alone "L1" (mkMerge [] true)
              (world (row db.Complete db.Approval 3 3))
              (row db.Complete db.Approval 3 3) eq_refl eq_refl)
    as (Ha & Hs & Hstop).
  split; [exact Ha|]. split; [exact Hs|exact (Hstop eq_refl)].
Defined.
